(** * Reed-Solomon parity encoder ([rs_encoder.c]): model and properties

    The C function [rs_encode_message] is embedded as an executable Rocq
    function over mathematical integers.  C arrays are lists of [Z]; an
    access outside an array, a signed overflow and an out-of-range shift are
    undefined behaviour in C and are reported by the model as [Undefined].
    [uint8_t] cells hold values in [0, 256); storing an [int] into such a
    cell reduces it modulo 256. *)

From Stdlib Require Import ZArith Lia Bool Ascii.
From stdpp Require Import base list strings pretty.

Local Open Scope Z_scope.

(** ** Outcomes of a C computation *)

Inductive buffer := BufMsg | BufMsgZ | BufParity | BufRhs | BufTable.

Inductive ub :=
| OutOfBounds (b : buffer) (i : Z)
| IntOverflow
| BadShift.

Inductive outcome (A : Type) :=
| Done (a : A)
| Undefined (u : ub).

Arguments Done {A} a.
Arguments Undefined {A} u.

#[global] Instance outcome_ret : MRet outcome := fun _ a => Done a.

#[global] Instance outcome_bind : MBind outcome := fun _ _ f c =>
  match c with
  | Done a => f a
  | Undefined u => Undefined u
  end.

(** ** Machine integers and arrays *)

Definition int_ok (z : Z) : bool := (- 2 ^ 31 <=? z) && (z <? 2 ^ 31).

Definition int_add (a b : Z) : outcome Z :=
  if int_ok (a + b) then Done (a + b) else Undefined IntOverflow.

Definition int_sub (a b : Z) : outcome Z :=
  if int_ok (a - b) then Done (a - b) else Undefined IntOverflow.

(** [1 << m] on a 32-bit [int]. *)
Definition shl1 (m : Z) : outcome Z :=
  if (0 <=? m) && (m <? 31) then Done (Z.shiftl 1 m) else Undefined BadShift.

Definition to_u8 (v : Z) : Z := v mod 256.

Arguments to_u8 : simpl never.

Definition load (b : buffer) (a : list Z) (i : Z) : outcome Z :=
  if 0 <=? i then
    match a !! Z.to_nat i with
    | Some v => Done v
    | None => Undefined (OutOfBounds b i)
    end
  else Undefined (OutOfBounds b i).

Definition store (b : buffer) (a : list Z) (i v : Z) : outcome (list Z) :=
  if 0 <=? i then
    match a !! Z.to_nat i with
    | Some _ => Done (<[Z.to_nat i := v]> a)
    | None => Undefined (OutOfBounds b i)
    end
  else Undefined (OutOfBounds b i).

(** [for (i = lo; i < hi; i++) body]: the bounds of every loop of the
    encoder are fixed before the loop starts, so the trip count is known. *)
Fixpoint for_loop {S : Type} (n : nat) (i : Z)
    (body : Z -> S -> outcome S) (s : S) : outcome S :=
  match n with
  | O => Done s
  | Datatypes.S n' => s' ← body i s; for_loop n' (i + 1) body s'
  end.

Definition for_range {S : Type} (lo hi : Z)
    (body : Z -> S -> outcome S) (s : S) : outcome S :=
  for_loop (Z.to_nat (hi - lo)) lo body s.

(** ** Constants of [rs_encoder.h] *)

Definition RS_MAX_SYMBOL_SIZE : Z := 5.
Definition RS_MAX_PARITY_SYMBOLS : Z := 8.
Definition RS_MAX_MESSAGE_LENGTH : Z := 16.

(** ** Tables of [rs_encoder.c] *)

Definition GALOIS_PRODUCTS_4 : list (list Z) :=
  [ [0; 0; 0; 0];
    [13; 12; 8; 7];
    [9; 11; 3; 14];
    [4; 7; 11; 9];
    [1; 5; 6; 15];
    [12; 9; 14; 8];
    [8; 14; 5; 1];
    [5; 2; 13; 6];
    [2; 10; 12; 13];
    [15; 6; 4; 10];
    [11; 1; 15; 3];
    [6; 13; 7; 4];
    [3; 15; 10; 2];
    [14; 3; 2; 5];
    [10; 4; 9; 12];
    [7; 8; 1; 11] ].

Definition GALOIS_ADDITIONS_4 : list (list Z) :=
  [ [0;1;2;3;4;5;6;7;8;9;10;11;12;13;14;15];
    [1;0;3;2;5;4;7;6;9;8;11;10;13;12;15;14];
    [2;3;0;1;6;7;4;5;10;11;8;9;14;15;12;13];
    [3;2;1;0;7;6;5;4;11;10;9;8;15;14;13;12];
    [4;5;6;7;0;1;2;3;12;13;14;15;8;9;10;11];
    [5;4;7;6;1;0;3;2;13;12;15;14;9;8;11;10];
    [6;7;4;5;2;3;0;1;14;15;12;13;10;11;8;9];
    [7;6;5;4;3;2;1;0;15;14;13;12;11;10;9;8];
    [8;9;10;11;12;13;14;15;0;1;2;3;4;5;6;7];
    [9;8;11;10;13;12;15;14;1;0;3;2;5;4;7;6];
    [10;11;8;9;14;15;12;13;2;3;0;1;6;7;4;5];
    [11;10;9;8;15;14;13;12;3;2;1;0;7;6;5;4];
    [12;13;14;15;8;9;10;11;4;5;6;7;0;1;2;3];
    [13;12;15;14;9;8;11;10;5;4;7;6;1;0;3;2];
    [14;15;12;13;10;11;8;9;6;7;4;5;2;3;0;1];
    [15;14;13;12;11;10;9;8;7;6;5;4;3;2;1;0] ].

(** [tab[l][r]] for a two-dimensional constant table; both subscripts must
    stay inside their own dimension. *)
Definition table_get (tab : list (list Z)) (l r : Z) : outcome Z :=
  if (0 <=? l) && (0 <=? r) then
    match tab !! Z.to_nat l with
    | Some row =>
        match row !! Z.to_nat r with
        | Some v => Done v
        | None => Undefined (OutOfBounds BufTable r)
        end
    | None => Undefined (OutOfBounds BufTable l)
    end
  else Undefined (OutOfBounds BufTable (Z.min l r)).

(** ** Field operations *)

Definition galois_field_add (m l r : Z) : outcome Z :=
  if m =? 4 then table_get GALOIS_ADDITIONS_4 l r
  else if m =? 5 then Done 0
  else Done (-1).

Definition galois_field_multiply_generator (m l genIndex : Z) : outcome Z :=
  if m =? 4 then table_get GALOIS_PRODUCTS_4 l genIndex
  else if m =? 5 then Done 0
  else Done (-1).

(** ** The encoder *)

(** [for (j = 0; j < m; j++) rhs[j] = galois_field_multiply_generator(...)]
    on [int rhs[RS_MAX_PARITY_SYMBOLS] = {0}]. *)
Definition compute_rhs (m feedback : Z) : outcome (list Z) :=
  for_range 0 m
    (fun j rhs =>
       v ← galois_field_multiply_generator m feedback j;
       store BufRhs rhs j v)
    (replicate (Z.to_nat RS_MAX_PARITY_SYMBOLS) 0).

(** [for (j = 0; j < m - 1; j++) parity[j] = add(parity[j + 1], rhs[j])]
    followed by [parity[m - 1] = add(0, rhs[m - 1])]. *)
Definition shift_register (m : Z) (rhs parity : list Z) : outcome (list Z) :=
  parity' ← for_range 0 (m - 1)
    (fun j parity =>
       p ← load BufParity parity (j + 1);
       r ← load BufRhs rhs j;
       v ← galois_field_add m p r;
       store BufParity parity j (to_u8 v))
    parity;
  r ← load BufRhs rhs (m - 1);
  v ← galois_field_add m 0 r;
  store BufParity parity' (m - 1) (to_u8 v).

(** One iteration of the encoding loop, for the padded symbol [s]. *)
Definition lfsr_step (m s : Z) (parity : list Z) : outcome (list Z) :=
  p0 ← load BufParity parity 0;
  msgZJPlusParity1 ← galois_field_add m s p0;
  rhs ← compute_rhs m msgZJPlusParity1;
  shift_register m rhs parity.

(** The zero padding and the copy of the message into [msgZ]. *)
Definition pad_message (msg : list Z) (k shortened : Z) : outcome (list Z) :=
  msgZ ← for_range 0 shortened
    (fun i msgZ => store BufMsgZ msgZ i 0)
    (replicate (Z.to_nat (RS_MAX_PARITY_SYMBOLS + RS_MAX_MESSAGE_LENGTH)) 0);
  for_range 0 k
    (fun i msgZ =>
       idx ← int_add i shortened;
       v ← load BufMsg msg i;
       store BufMsgZ msgZ idx v)
    msgZ.

(** [rs_encode_message msg k t m parity]: the returned pair is the [int]
    result and the final contents of the caller's parity buffer.  [msg] is
    read completely into [msgZ] before [parity] is first written, so the
    two buffers may be modelled as separate lists. *)
Definition rs_encode_message (msg : list Z) (k t m : Z) (parity : list Z)
    : outcome (Z * list Z) :=
  n ← int_add k t;
  blockSize ← shl1 m;
  shortened ← int_sub (blockSize - 1) n;
  msgZ ← pad_message msg k shortened;
  bound ← int_add shortened k;
  parity' ← for_range 0 bound
    (fun i parity => s ← load BufMsgZ msgZ i; lfsr_step m s parity)
    parity;
  Done (0, parity').

(** ** Reference arithmetic of GF(2^m)

    The definitions of this part are not taken from the C code: they are the
    arithmetic the tables are meant to tabulate, written after the table
    construction described by the specification (a primitive polynomial,
    discrete-log and antilog tables, products as
    [antilog[(log a + log c) mod (2^m - 1)]], 0 when a factor is 0) and after
    naive polynomial long division.  They serve as the yardstick the tables
    and the encoder are compared with. *)

(** Multiplication by the primitive element: shift, then reduce by the
    primitive polynomial [prim] when bit [m] appears. *)
Definition spec_xtime (m prim a : Z) : Z :=
  let s := Z.shiftl a 1 in
  if Z.testbit s m then Z.lxor s prim else s.

Fixpoint spec_antilog_nat (m prim : Z) (e : nat) : Z :=
  match e with
  | O => 1
  | S e' => spec_xtime m prim (spec_antilog_nat m prim e')
  end.

Definition spec_antilog (m prim e : Z) : Z :=
  spec_antilog_nat m prim (Z.to_nat e).

(** The least exponent [e] in [0, 2^m - 1) with [antilog e = a]. *)
Definition spec_log (m prim a : Z) : Z :=
  default 0
    (find (fun e => spec_antilog m prim e =? a) (seqZ 0 (2 ^ m - 1))).

Definition spec_gf_mul (m prim a c : Z) : Z :=
  if (a =? 0) || (c =? 0) then 0
  else spec_antilog m prim
         ((spec_log m prim a + spec_log m prim c) mod (2 ^ m - 1)).

(** GF(16) as MATLAB's [rsenc] uses it: primitive polynomial x^4 + x + 1. *)
Definition PRIMITIVE_POLY_4 : Z := 19.

Definition gf16_mul (a c : Z) : Z := spec_gf_mul 4 PRIMITIVE_POLY_4 a c.

(** The generator polynomial tabulated by [GALOIS_PRODUCTS_4], highest
    order first: the leading coefficient is 1 and coefficient [j + 1] is the
    product of the field element 1 by generator coefficient [j], that is,
    row 1 of the table. *)
Definition GENERATOR_4 : list Z :=
  1 :: default [] (GALOIS_PRODUCTS_4 !! 1%nat).

(** One step of long division by a monic polynomial whose non-leading
    coefficients are [g_tail]: [window] holds the current leading
    [length g_tail] coefficients of the running dividend, [c] is the next
    coefficient of the dividend.  The leading coefficient of the window is
    cancelled by subtracting that multiple of the divisor. *)
Definition spec_poly_rem_step (mul : Z -> Z -> Z) (g_tail window : list Z)
    (c : Z) : list Z :=
  match window with
  | [] => []
  | lead :: window' =>
      zip_with Z.lxor (window' ++ [c]) (map (mul lead) g_tail)
  end.

(** Remainder of the polynomial [cw] (coefficients highest order first) in
    the division by the monic polynomial [g]; the result has
    [length g - 1] coefficients, highest order first. *)
Definition spec_poly_rem (mul : Z -> Z -> Z) (g cw : list Z) : list Z :=
  fold_left (spec_poly_rem_step mul (tail g)) cw
    (replicate (length g - 1) 0).

(** The leading coefficients cancelled by the successive division steps;
    after the [length g - 1] steps that only fill the window they are the
    coefficients of the quotient, highest order first. *)
Fixpoint spec_poly_leads (mul : Z -> Z -> Z) (g_tail cw window : list Z)
    : list Z :=
  match cw with
  | [] => []
  | c :: cw' =>
      hd 0 window
      :: spec_poly_leads mul g_tail cw' (spec_poly_rem_step mul g_tail window c)
  end.

Definition spec_poly_quot (mul : Z -> Z -> Z) (g cw : list Z) : list Z :=
  drop (length g - 1)
    (spec_poly_leads mul (tail g) cw (replicate (length g - 1) 0)).

(** Product of two polynomials, coefficients highest order first. *)
Fixpoint spec_poly_mul (mul : Z -> Z -> Z) (p q : list Z) : list Z :=
  match p with
  | [] => []
  | a :: p' =>
      let hi := map (mul a) q ++ replicate (length p') 0 in
      let lo := spec_poly_mul mul p' q in
      zip_with Z.lxor hi (replicate (length hi - length lo) 0 ++ lo)
  end.

(** ** Pure form of the encoding loop for m = 4

    Used to reason about the encoder once bounds are discharged. *)

Definition field_elem (m x : Z) : Prop := 0 <= x < 2 ^ m.

(** A four-symbol register of GF(16) elements. *)
Definition reg4 (r : list Z) : Prop :=
  length r = 4%nat /\ Forall (field_elem 4) r.

Definition prod4 (a j : Z) : Z :=
  default 0 (row ← GALOIS_PRODUCTS_4 !! Z.to_nat a; row !! Z.to_nat j).

(** The register after one encoder step on [s], for a four-symbol
    register. *)
Definition lfsr4 (r : list Z) (s : Z) : list Z :=
  match r with
  | [a; b; c; d] =>
      let f := Z.lxor s a in
      [Z.lxor b (prod4 f 0); Z.lxor c (prod4 f 1);
       Z.lxor d (prod4 f 2); Z.lxor 0 (prod4 f 3)]
  | _ => r
  end.

(** The four products of [s] by the generator coefficients, and the
    multiplication of a register, read as a polynomial of degree below 4,
    by x modulo the generator. *)
Definition gen4 (s : Z) : list Z :=
  [prod4 s 0; prod4 s 1; prod4 s 2; prod4 s 3].

Definition mulx4 (v : list Z) : list Z :=
  match v with
  | [a; b; c; d] => zip_with Z.lxor [b; c; d; 0] (gen4 a)
  | _ => v
  end.

Definition mulx4_pow4 (v : list Z) : list Z :=
  mulx4 (mulx4 (mulx4 (mulx4 v))).

(** Long division by the generator of GF(16), one dividend symbol. *)
Definition rem_step4 (window : list Z) (c : Z) : list Z :=
  spec_poly_rem_step gf16_mul (tail GENERATOR_4) window c.

(** Running a step function of the C model over a list of symbols. *)
Fixpoint fold_outcome {S : Type} (step : Z -> S -> outcome S)
    (syms : list Z) (s : S) : outcome S :=
  match syms with
  | [] => Done s
  | x :: syms' => s' ← step x s; fold_outcome step syms' s'
  end.

Definition vxor (u v : list Z) : list Z := zip_with Z.lxor u v.

Definition below16 (x : Z) : bool := (0 <=? x) && (x <? 16).

(** The symbols the encoding loop consumes: the zero padding, then the
    message. *)
Definition padded (msg : list Z) (k shortened : Z) : list Z :=
  replicate (Z.to_nat shortened) 0 ++ take (Z.to_nat k) msg.

(** ** The encoder on one shared array

    [main.c] hands [msg] and [parity] over as pointers into one and the same
    array.  Here a pointer is an offset into the array [mem]; [p[i]] is the
    cell at offset [p + i] and must lie inside [mem].  The function is the
    one above, cell for cell, with each access to [msg] and [parity] going
    through its offset. *)

Definition load_at (b : buffer) (mem : list Z) (p i : Z) : outcome Z :=
  load b mem (p + i).

Definition store_at (b : buffer) (mem : list Z) (p i v : Z)
    : outcome (list Z) :=
  store b mem (p + i) v.

Definition shift_register_at (m : Z) (rhs : list Z) (parity : Z)
    (mem : list Z) : outcome (list Z) :=
  mem' ← for_range 0 (m - 1)
    (fun j mem =>
       p ← load_at BufParity mem parity (j + 1);
       r ← load BufRhs rhs j;
       v ← galois_field_add m p r;
       store_at BufParity mem parity j (to_u8 v))
    mem;
  r ← load BufRhs rhs (m - 1);
  v ← galois_field_add m 0 r;
  store_at BufParity mem' parity (m - 1) (to_u8 v).

Definition lfsr_step_at (m s parity : Z) (mem : list Z) : outcome (list Z) :=
  p0 ← load_at BufParity mem parity 0;
  msgZJPlusParity1 ← galois_field_add m s p0;
  rhs ← compute_rhs m msgZJPlusParity1;
  shift_register_at m rhs parity mem.

Definition pad_message_at (mem : list Z) (msg k shortened : Z)
    : outcome (list Z) :=
  msgZ ← for_range 0 shortened
    (fun i msgZ => store BufMsgZ msgZ i 0)
    (replicate (Z.to_nat (RS_MAX_PARITY_SYMBOLS + RS_MAX_MESSAGE_LENGTH)) 0);
  for_range 0 k
    (fun i msgZ =>
       idx ← int_add i shortened;
       v ← load_at BufMsg mem msg i;
       store BufMsgZ msgZ idx v)
    msgZ.

(** [rs_encode_message_at mem msg k t m parity]: the call
    [rs_encode_message(mem + msg, k, t, m, mem + parity)]; the result is the
    [int] returned and the final contents of the array. *)
Definition rs_encode_message_at (mem : list Z) (msg k t m parity : Z)
    : outcome (Z * list Z) :=
  n ← int_add k t;
  blockSize ← shl1 m;
  shortened ← int_sub (blockSize - 1) n;
  msgZ ← pad_message_at mem msg k shortened;
  bound ← int_add shortened k;
  mem' ← for_range 0 bound
    (fun i mem => s ← load BufMsgZ msgZ i; lfsr_step_at m s parity mem)
    mem;
  Done (0, mem').

(** ** The demonstration program [main.c] *)

Definition nl : string := String "010"%char EmptyString.

Definition hex_digit (d : Z) : string :=
  match d with
  | 0 => "0" | 1 => "1" | 2 => "2" | 3 => "3"
  | 4 => "4" | 5 => "5" | 6 => "6" | 7 => "7"
  | 8 => "8" | 9 => "9" | 10 => "a" | 11 => "b"
  | 12 => "c" | 13 => "d" | 14 => "e" | _ => "f"
  end.

(** [printf] conversion [%x] of a [uint8_t] value: lower-case hexadecimal
    without leading zeros, hence one or two digits. *)
Definition fmt_x (v : Z) : string :=
  if v <? 16 then hex_digit v
  else hex_digit (v / 16) +:+ hex_digit (v mod 16).

(** The printing loop of [main]: the first [n] cells of the array, each
    followed by a space, the last one by a line feed; [n] stands for
    [k + t] and [out] for what standard output holds so far. *)
Definition print_codeword (mem : list Z) (n : Z) (out : string)
    : outcome string :=
  for_range 0 n
    (fun i out =>
       elem ← load BufMsg mem i;
       if i <? n - 1
       then Done (out +:+ fmt_x elem +:+ " ")
       else Done (out +:+ fmt_x elem +:+ nl))
    out.

(** [main]: its result, what it wrote to standard output and what it wrote
    to standard error. *)
Definition main : outcome (Z * string * string) :=
  let k := 10 in
  let t := 4 in
  let msgBuffer16fsk := [2; 5; 6; 6; 0; 11; 15; 12; 1; 11; 0; 0; 0; 0] in
  r ← rs_encode_message_at msgBuffer16fsk 0 k t 4 10;
  let err := r.1 in
  let stderr :=
    if err =? 0 then ""
    else "Error encoding RS message, code = " +:+ pretty err +:+ nl in
  n ← int_add k t;
  stdout ← print_codeword r.2 n
    ("Successfully encoded message. Message = " +:+ nl +:+ "0x");
  Done (0, stdout, stderr).

(** Loop counters of the unrolled inner loops. *)
Ltac norm_index :=
  change (0 + 1 + 1 + 1 + 1) with 4 in *;
  change (0 + 1 + 1 + 1) with 3 in *;
  change (0 + 1 + 1) with 2 in *;
  change (0 + 1) with 1 in *;
  change (5 - 1) with 4 in *;
  change (4 - 1) with 3 in *.

Create HintDb reg4 discriminated.

(** Closed lists of field elements and closed registers. *)
Ltac field_elems :=
  repeat (apply Forall_cons_2; [unfold field_elem; simpl; lia|]);
  apply Forall_nil_2.

Ltac closed_reg4 := split; [reflexivity|field_elems].

(** * Properties *)

(** ** Exhaustive checks over small ranges *)

Lemma forallb_seqZ (P : Z -> bool) (n : Z) :
  forallb P (seqZ 0 n) = true -> forall x, 0 <= x < n -> P x = true.
Proof.
  intros H x Hx.
  rewrite forallb_forall in H.
  apply H, list_elem_of_In, elem_of_seqZ. lia.
Qed.

Lemma forallb2_seqZ (P : Z -> Z -> bool) (n1 n2 : Z) :
  forallb (fun x => forallb (P x) (seqZ 0 n2)) (seqZ 0 n1) = true ->
  forall x y, 0 <= x < n1 -> 0 <= y < n2 -> P x y = true.
Proof.
  intros H x y Hx Hy.
  apply (forallb_seqZ _ n2); [|done].
  by apply (forallb_seqZ (fun x => forallb (P x) (seqZ 0 n2)) n1).
Qed.

Lemma below16_spec (x : Z) : below16 x = true <-> 0 <= x < 16.
Proof. unfold below16. lia. Qed.

(** ** The tables *)

Lemma lxor_below16 (a b : Z) :
  0 <= a < 16 -> 0 <= b < 16 -> 0 <= Z.lxor a b < 16.
Proof.
  intros Ha Hb. apply below16_spec.
  revert a b Ha Hb. apply forallb2_seqZ. by vm_compute.
Qed.

Lemma add4_xor (a b : Z) :
  0 <= a < 16 -> 0 <= b < 16 -> galois_field_add 4 a b = Done (Z.lxor a b).
Proof.
  intros Ha Hb.
  pose (P := fun a b : Z =>
    match galois_field_add 4 a b with
    | Done v => v =? Z.lxor a b
    | Undefined _ => false
    end).
  assert (HP : P a b = true).
  { revert a b Ha Hb. apply forallb2_seqZ. by vm_compute. }
  unfold P in HP. destruct (galois_field_add 4 a b); [|done].
  f_equal. lia.
Qed.

Lemma mul4_prod (a j : Z) :
  0 <= a < 16 -> 0 <= j < 4 ->
  galois_field_multiply_generator 4 a j = Done (prod4 a j).
Proof.
  intros Ha Hj.
  pose (P := fun a j : Z =>
    match galois_field_multiply_generator 4 a j with
    | Done v => v =? prod4 a j
    | Undefined _ => false
    end).
  assert (HP : P a j = true).
  { revert a j Ha Hj. apply forallb2_seqZ. by vm_compute. }
  unfold P in HP. destruct (galois_field_multiply_generator 4 a j); [|done].
  f_equal. lia.
Qed.

Lemma prod4_below16 (a j : Z) :
  0 <= a < 16 -> 0 <= j < 4 -> 0 <= prod4 a j < 16.
Proof.
  intros Ha Hj. apply below16_spec.
  revert a j Ha Hj. apply (forallb2_seqZ (fun a j => below16 (prod4 a j))).
  by vm_compute.
Qed.

Lemma prod4_zero (j : Z) : 0 <= j < 4 -> prod4 0 j = 0.
Proof.
  intros Hj. apply Z.eqb_eq. revert j Hj.
  apply (forallb_seqZ (fun j => prod4 0 j =? 0)). by vm_compute.
Qed.

Lemma prod4_additive (a b j : Z) :
  0 <= a < 16 -> 0 <= b < 16 -> 0 <= j < 4 ->
  prod4 (Z.lxor a b) j = Z.lxor (prod4 a j) (prod4 b j).
Proof.
  intros Ha Hb Hj. apply Z.eqb_eq. revert b j Hb Hj. revert a Ha.
  pose (P := fun a : Z => forallb (fun b => forallb (fun j =>
    prod4 (Z.lxor a b) j =? Z.lxor (prod4 a j) (prod4 b j)) (seqZ 0 4))
    (seqZ 0 16)).
  assert (HP : forall a, 0 <= a < 16 -> P a = true).
  { apply forallb_seqZ. by vm_compute. }
  intros a Ha b j Hb Hj.
  exact (forallb2_seqZ (fun b j =>
    prod4 (Z.lxor a b) j =? Z.lxor (prod4 a j) (prod4 b j)) 16 4
    (HP a Ha) b j Hb Hj).
Qed.

Lemma prod4_gf16_mul (a j : Z) :
  0 <= a < 16 -> 0 <= j < 4 ->
  prod4 a j = gf16_mul a (GENERATOR_4 !!! Z.to_nat (j + 1)).
Proof.
  intros Ha Hj. apply Z.eqb_eq. revert a j Ha Hj.
  apply (forallb2_seqZ (fun a j =>
    prod4 a j =? gf16_mul a (GENERATOR_4 !!! Z.to_nat (j + 1)))).
  by vm_compute.
Qed.

(** ** One encoder step for m = 4 *)

Lemma to_u8_small (v : Z) : 0 <= v < 256 -> to_u8 v = v.
Proof. intros Hv. unfold to_u8. by apply Z.mod_small. Qed.

Lemma lfsr_step_4 (s a b c d : Z) (rest : list Z) :
  0 <= s < 16 -> 0 <= a < 16 -> 0 <= b < 16 -> 0 <= c < 16 -> 0 <= d < 16 ->
  lfsr_step 4 s (a :: b :: c :: d :: rest)
  = Done (lfsr4 [a; b; c; d] s ++ rest).
Proof.
  intros Hs Ha Hb Hc Hd.
  pose proof (lxor_below16 s a Hs Ha) as Hf.
  unfold lfsr_step. simpl load. simpl mbind.
  rewrite add4_xor by done. simpl mbind.
  unfold compute_rhs, for_range. simpl.
  norm_index.
  repeat (rewrite mul4_prod by lia; simpl).
  unfold shift_register, for_range. simpl.
  norm_index.
  pose proof (prod4_below16 (Z.lxor s a) 0 Hf ltac:(lia)) as H0.
  pose proof (prod4_below16 (Z.lxor s a) 1 Hf ltac:(lia)) as H1.
  pose proof (prod4_below16 (Z.lxor s a) 2 Hf ltac:(lia)) as H2.
  pose proof (prod4_below16 (Z.lxor s a) 3 Hf ltac:(lia)) as H3.
  pose proof (lxor_below16 b _ Hb H0).
  pose proof (lxor_below16 c _ Hc H1).
  pose proof (lxor_below16 d _ Hd H2).
  pose proof (lxor_below16 0 _ ltac:(lia) H3).
  rewrite (add4_xor b) by done. simpl. rewrite to_u8_small by lia. simpl.
  rewrite (add4_xor c) by done. simpl. rewrite to_u8_small by lia. simpl.
  rewrite (add4_xor d) by done. simpl. rewrite to_u8_small by lia. simpl.
  rewrite (add4_xor 0) by (done || lia). simpl.
  rewrite to_u8_small by lia. done.
Qed.

(** ** Loads, stores and machine arithmetic that succeed *)

Lemma Done_inj {A : Type} (x y : A) : Done x = Done y -> x = y.
Proof. by intros [=]. Qed.

Lemma int_add_ok (a b : Z) :
  - 2 ^ 31 <= a + b < 2 ^ 31 -> int_add a b = Done (a + b).
Proof.
  intros H. unfold int_add, int_ok.
  destruct (Z.leb_spec (- 2 ^ 31) (a + b)), (Z.ltb_spec (a + b) (2 ^ 31));
    simpl; (done || lia).
Qed.

Lemma int_sub_ok (a b : Z) :
  - 2 ^ 31 <= a - b < 2 ^ 31 -> int_sub a b = Done (a - b).
Proof.
  intros H. unfold int_sub, int_ok.
  destruct (Z.leb_spec (- 2 ^ 31) (a - b)), (Z.ltb_spec (a - b) (2 ^ 31));
    simpl; (done || lia).
Qed.

Lemma load_ok (b : buffer) (a : list Z) (i v : Z) :
  0 <= i -> a !! Z.to_nat i = Some v -> load b a i = Done v.
Proof.
  intros Hi Hv. unfold load. rewrite Hv.
  by destruct (Z.leb_spec 0 i); [|lia].
Qed.

Lemma store_ok (b : buffer) (a : list Z) (i v : Z) :
  0 <= i < Z.of_nat (length a) ->
  store b a i v = Done (<[Z.to_nat i := v]> a).
Proof.
  intros Hi. unfold store.
  destruct (lookup_lt_is_Some_2 a (Z.to_nat i)) as [x Hx]; [lia|].
  rewrite Hx. by destruct (Z.leb_spec 0 i); [|lia].
Qed.

Lemma store_oob (b : buffer) (a : list Z) (i v : Z) :
  Z.of_nat (length a) <= i -> store b a i v = Undefined (OutOfBounds b i).
Proof.
  intros Hi. unfold store.
  rewrite (lookup_ge_None_2 a (Z.to_nat i)) by lia.
  by destruct (0 <=? i).
Qed.

(** ** The loops of the encoder *)

Lemma zero_loop (n i : nat) (len : nat) :
  (i + n <= len)%nat ->
  for_loop n (Z.of_nat i) (fun i msgZ => store BufMsgZ msgZ i 0)
    (replicate len 0)
  = Done (replicate len 0).
Proof.
  revert i. induction n as [|n IH]; intros i Hi; [done|].
  simpl. rewrite store_ok by (rewrite length_replicate; lia).
  rewrite Nat2Z.id, list_insert_id by (apply lookup_replicate_2; lia).
  simpl. replace (Z.of_nat i + 1) with (Z.of_nat (S i)) by lia.
  apply IH. lia.
Qed.

Lemma copy_loop (msg : list Z) (sh n i len : nat) :
  (i + n <= length msg)%nat -> (sh + i + n <= len)%nat ->
  Z.of_nat len < 2 ^ 31 ->
  for_loop n (Z.of_nat i)
    (fun i msgZ =>
       idx ← int_add i (Z.of_nat sh);
       v ← load BufMsg msg i;
       store BufMsgZ msgZ idx v)
    (replicate sh 0 ++ take i msg ++ replicate (len - sh - i) 0)
  = Done (replicate sh 0 ++ take (i + n) msg
          ++ replicate (len - sh - (i + n)) 0).
Proof.
  intros Hm Hl Hlen31. revert i Hm Hl.
  induction n as [|n IH]; intros i Hm Hl.
  { simpl. by rewrite Nat.add_0_r. }
  destruct (lookup_lt_is_Some_2 msg i) as [x Hx]; [lia|].
  cbn [for_loop].
  assert (Hlen : length (take i msg) = i) by (rewrite length_take; lia).
  rewrite int_add_ok by lia. simpl.
  rewrite (load_ok _ _ _ x) by (rewrite ?Nat2Z.id; (done || lia)). simpl.
  rewrite store_ok
    by (rewrite !length_app, !length_replicate, Hlen; lia).
  simpl.
  replace (Z.to_nat (Z.of_nat i + Z.of_nat sh)) with (sh + i)%nat by lia.
  replace (Z.of_nat i + 1) with (Z.of_nat (S i)) by lia.
  replace (<[(sh + i)%nat:=x]> _)
    with (replicate sh 0 ++ take (S i) msg
          ++ replicate (len - sh - S i) 0).
  { rewrite IH by lia. do 3 f_equal; [f_equal; lia|f_equal; lia]. }
  rewrite insert_app_r_alt by (rewrite length_replicate; lia).
  rewrite length_replicate.
  replace (sh + i - sh)%nat with (length (take i msg) + 0)%nat by lia.
  rewrite insert_app_r.
  replace (len - sh - i)%nat with (S (len - sh - S i)) by lia.
  simpl. rewrite (take_S_r _ _ x Hx), <- app_assoc. done.
Qed.

Lemma pad_message_ok (msg : list Z) (k shortened : Z) :
  0 <= shortened -> 0 <= k <= Z.of_nat (length msg) ->
  shortened + k <= RS_MAX_PARITY_SYMBOLS + RS_MAX_MESSAGE_LENGTH ->
  pad_message msg k shortened
  = Done (padded msg k shortened
          ++ replicate (Z.to_nat (24 - shortened - k)) 0).
Proof.
  unfold RS_MAX_PARITY_SYMBOLS, RS_MAX_MESSAGE_LENGTH.
  intros Hs Hk Hb. unfold pad_message, for_range, padded.
  rewrite !Z.sub_0_r.
  pose proof (zero_loop (Z.to_nat shortened) 0 24 ltac:(lia)) as Hz.
  change (Z.of_nat 0) with 0 in Hz.
  change (Z.to_nat (RS_MAX_PARITY_SYMBOLS + RS_MAX_MESSAGE_LENGTH))
    with 24%nat.
  rewrite Hz. simpl mbind.
  pose proof (copy_loop msg (Z.to_nat shortened) (Z.to_nat k) 0 24
                ltac:(lia) ltac:(lia) ltac:(lia)) as Hc.
  change (Z.of_nat 0) with 0 in Hc.
  rewrite take_0, Nat.sub_0_r, Z2Nat.id in Hc by lia.
  simpl in Hc. rewrite <- replicate_add in Hc.
  replace (Z.to_nat shortened + (24 - Z.to_nat shortened))%nat
    with 24%nat in Hc by lia.
  etrans; [exact Hc|].
  rewrite <- app_assoc. do 4 f_equal. lia.
Qed.

(** A loop that reads one array cell per iteration and hands it to [F]
    is a fold of [F] over the cells read. *)
Section load_loops.
Context {S : Type} (b : buffer) (F : Z -> S -> outcome S).

Lemma load_loop (syms pre post : list Z) (s : S) :
  for_loop (length syms) (Z.of_nat (length pre))
    (fun i st => x ← load b (pre ++ syms ++ post) i; F x st) s
  = fold_outcome F syms s.
Proof.
  revert pre s. induction syms as [|x syms IH]; intros pre s; [done|].
  cbn [length for_loop fold_outcome].
  rewrite (load_ok _ _ _ x).
  - simpl. destruct (F x s) as [s'|u]; [|done]. simpl.
    specialize (IH (pre ++ [x]) s').
    rewrite length_app, <- app_assoc in IH. simpl in IH.
    replace (Z.of_nat (length pre) + 1)
      with (Z.of_nat (length pre + 1)) by lia.
    exact IH.
  - lia.
  - rewrite Nat2Z.id. by apply list_lookup_middle.
Qed.

Lemma load_range (syms post : list Z) (s : S) :
  for_range 0 (Z.of_nat (length syms))
    (fun i st => x ← load b (syms ++ post) i; F x st) s
  = fold_outcome F syms s.
Proof.
  unfold for_range. rewrite Z.sub_0_r, Nat2Z.id.
  exact (load_loop syms [] post s).
Qed.

End load_loops.

(** ** The register of the m = 4 encoder *)

Lemma field_elem_4 (x : Z) : field_elem 4 x <-> 0 <= x < 16.
Proof. unfold field_elem. change (2 ^ 4) with 16. done. Qed.

Lemma reg4_inv (r : list Z) :
  reg4 r ->
  exists a b c d, r = [a; b; c; d] /\
    0 <= a < 16 /\ 0 <= b < 16 /\ 0 <= c < 16 /\ 0 <= d < 16.
Proof.
  intros [Hl Hf].
  destruct r as [|a [|b [|c [|d [|e r]]]]]; try done.
  exists a, b, c, d. split; [done|].
  rewrite !Forall_cons in Hf. rewrite !field_elem_4 in Hf. tauto.
Qed.

Lemma reg4_intro (a b c d : Z) :
  0 <= a < 16 -> 0 <= b < 16 -> 0 <= c < 16 -> 0 <= d < 16 ->
  reg4 [a; b; c; d].
Proof.
  intros. split; [done|].
  rewrite !Forall_cons, !field_elem_4. by rewrite Forall_nil.
Qed.

Lemma lfsr4_reg4 (r : list Z) (s : Z) :
  reg4 r -> field_elem 4 s -> reg4 (lfsr4 r s).
Proof.
  intros Hr Hs. apply field_elem_4 in Hs.
  destruct (reg4_inv r Hr) as (a & b & c & d & -> & Ha & Hb & Hc & Hd).
  pose proof (lxor_below16 s a Hs Ha) as Hf.
  simpl. apply reg4_intro; apply lxor_below16;
    (done || lia || (apply prod4_below16; (done || lia))).
Qed.

Lemma fold_lfsr4_reg4 (syms r : list Z) :
  reg4 r -> Forall (field_elem 4) syms -> reg4 (fold_left lfsr4 syms r).
Proof.
  revert r. induction syms as [|x syms IH]; intros r Hr Hs; [done|].
  apply Forall_cons in Hs as [Hx Hs]. simpl.
  apply IH; [by apply lfsr4_reg4|done].
Qed.

Lemma lfsr_step_reg4 (s : Z) (r rest : list Z) :
  reg4 r -> field_elem 4 s ->
  lfsr_step 4 s (r ++ rest) = Done (lfsr4 r s ++ rest).
Proof.
  intros Hr Hs. apply field_elem_4 in Hs.
  destruct (reg4_inv r Hr) as (a & b & c & d & -> & Ha & Hb & Hc & Hd).
  by apply lfsr_step_4.
Qed.

Lemma lfsr_fold_4 (syms r rest : list Z) :
  reg4 r -> Forall (field_elem 4) syms ->
  fold_outcome (lfsr_step 4) syms (r ++ rest)
  = Done (fold_left lfsr4 syms r ++ rest).
Proof.
  revert r. induction syms as [|x syms IH]; intros r Hr Hs; [done|].
  apply Forall_cons in Hs as [Hx Hs]. simpl.
  rewrite lfsr_step_reg4 by done. simpl.
  apply IH; [by apply lfsr4_reg4|done].
Qed.

Lemma padded_length (msg : list Z) (k shortened : Z) :
  0 <= shortened -> 0 <= k <= Z.of_nat (length msg) ->
  Z.of_nat (length (padded msg k shortened)) = shortened + k.
Proof.
  intros Hs Hk. unfold padded.
  rewrite length_app, length_replicate, length_take. lia.
Qed.

Lemma padded_field_elem (m : Z) (msg : list Z) (k shortened : Z) :
  0 <= m ->
  Forall (field_elem m) (take (Z.to_nat k) msg) ->
  Forall (field_elem m) (padded msg k shortened).
Proof.
  intros Hm Hmsg. unfold padded. apply Forall_app. split; [|done].
  apply Forall_replicate. unfold field_elem.
  pose proof (Z.pow_pos_nonneg 2 m). lia.
Qed.

(** The encoder for m = 4, whatever [t]: the first four cells of the parity
    buffer are the register, run over the padded message from their
    contents on entry. *)
Lemma rs_encode_message_4 (msg : list Z) (k t : Z) (r rest : list Z) :
  0 <= k <= Z.of_nat (length msg) -> 0 <= t -> k + t <= 15 ->
  Forall (field_elem 4) (take (Z.to_nat k) msg) ->
  reg4 r ->
  rs_encode_message msg k t 4 (r ++ rest)
  = Done (0, fold_left lfsr4 (padded msg k (15 - (k + t))) r ++ rest).
Proof.
  intros Hk Ht Hn Hmsg Hr. unfold rs_encode_message.
  rewrite int_add_ok by lia.
  change (shl1 4) with (Done (A:=Z) 16). simpl.
  change (16 - 1) with 15.
  rewrite int_sub_ok by lia. simpl.
  rewrite pad_message_ok
    by (unfold RS_MAX_PARITY_SYMBOLS, RS_MAX_MESSAGE_LENGTH; lia).
  simpl. rewrite int_add_ok by lia. simpl.
  replace (15 - (k + t) + k)
    with (Z.of_nat (length (padded msg k (15 - (k + t)))))
    by (rewrite padded_length; lia).
  rewrite (load_range BufMsgZ (lfsr_step 4)).
  rewrite lfsr_fold_4 by (done || by apply padded_field_elem).
  done.
Qed.

(** ** Linear algebra of the register over GF(16) *)

Lemma lxor_swap4 (a b c d : Z) :
  Z.lxor (Z.lxor a b) (Z.lxor c d) = Z.lxor (Z.lxor a c) (Z.lxor b d).
Proof.
  rewrite !Z.lxor_assoc. f_equal.
  rewrite <- !Z.lxor_assoc. f_equal. apply Z.lxor_comm.
Qed.

Lemma reg4_zero : reg4 [0; 0; 0; 0].
Proof. apply reg4_intro; lia. Qed.

Lemma reg4_unit (c : Z) : field_elem 4 c -> reg4 [0; 0; 0; c].
Proof. rewrite field_elem_4. intros. apply reg4_intro; lia. Qed.

Lemma reg4_gen4 (s : Z) : field_elem 4 s -> reg4 (gen4 s).
Proof.
  rewrite field_elem_4. intros Hs.
  apply reg4_intro; apply prod4_below16; (done || lia).
Qed.

Lemma reg4_vxor (u v : list Z) : reg4 u -> reg4 v -> reg4 (vxor u v).
Proof.
  intros Hu Hv.
  destruct (reg4_inv u Hu) as (a & b & c & d & -> & Ha & Hb & Hc & Hd).
  destruct (reg4_inv v Hv) as (a' & b' & c' & d' & -> & Ha' & Hb' & Hc' & Hd').
  apply reg4_intro; by apply lxor_below16.
Qed.

Lemma reg4_mulx4 (v : list Z) : reg4 v -> reg4 (mulx4 v).
Proof.
  intros Hv.
  destruct (reg4_inv v Hv) as (a & b & c & d & -> & Ha & Hb & Hc & Hd).
  apply (reg4_vxor [b; c; d; 0] (gen4 a)).
  - apply reg4_intro; (done || lia).
  - by apply reg4_gen4, field_elem_4.
Qed.

#[local] Hint Resolve reg4_zero reg4_unit reg4_gen4 reg4_vxor reg4_mulx4
  lfsr4_reg4 : reg4.

Lemma gen4_additive (s1 s2 : Z) :
  field_elem 4 s1 -> field_elem 4 s2 ->
  gen4 (Z.lxor s1 s2) = vxor (gen4 s1) (gen4 s2).
Proof.
  rewrite !field_elem_4. intros H1 H2. unfold gen4, vxor. simpl.
  by rewrite !prod4_additive by (done || lia).
Qed.

Lemma gen4_zero : gen4 0 = [0; 0; 0; 0].
Proof. by vm_compute. Qed.

Lemma mulx4_additive (u v : list Z) :
  reg4 u -> reg4 v -> mulx4 (vxor u v) = vxor (mulx4 u) (mulx4 v).
Proof.
  intros Hu Hv.
  destruct (reg4_inv u Hu) as (a & b & c & d & -> & Ha & Hb & Hc & Hd).
  destruct (reg4_inv v Hv) as (a' & b' & c' & d' & -> & Ha' & Hb' & Hc' & Hd').
  unfold vxor. simpl.
  rewrite !prod4_additive by (done || lia).
  rewrite !(lxor_swap4 _ (prod4 a _)).
  by rewrite Z.lxor_0_l.
Qed.

Lemma mulx4_pow4_additive (u v : list Z) :
  reg4 u -> reg4 v ->
  mulx4_pow4 (vxor u v) = vxor (mulx4_pow4 u) (mulx4_pow4 v).
Proof.
  intros Hu Hv. unfold mulx4_pow4.
  rewrite !mulx4_additive by auto 6 with reg4. done.
Qed.

(** x^4 times the constant polynomial [s], reduced by the generator, is
    [s] times the generator's non-leading coefficients. *)
Lemma mulx4_pow4_unit (s : Z) :
  field_elem 4 s -> mulx4_pow4 [0; 0; 0; s] = gen4 s.
Proof.
  intros Hs. unfold mulx4_pow4. simpl.
  rewrite !prod4_zero by lia. simpl.
  by rewrite !Z.lxor_0_l, ?Z.lxor_0_r.
Qed.

Lemma lfsr4_mulx4 (r : list Z) (s : Z) :
  reg4 r -> field_elem 4 s -> lfsr4 r s = vxor (mulx4 r) (gen4 s).
Proof.
  intros Hr Hs. apply field_elem_4 in Hs.
  destruct (reg4_inv r Hr) as (a & b & c & d & -> & Ha & Hb & Hc & Hd).
  unfold vxor. simpl.
  rewrite !prod4_additive by (done || lia).
  rewrite !(Z.lxor_comm (prod4 s _)), !Z.lxor_assoc. done.
Qed.

Lemma rem_step4_mulx4 (h : list Z) (c : Z) :
  reg4 h -> rem_step4 h c = vxor (mulx4 h) [0; 0; 0; c].
Proof.
  intros Hh.
  destruct (reg4_inv h Hh) as (a & b & c0 & d & -> & Ha & Hb & Hc & Hd).
  unfold rem_step4, vxor. simpl.
  rewrite !prod4_gf16_mul by (done || lia).
  change (GENERATOR_4 !!! Z.to_nat (0 + 1)) with 13.
  change (GENERATOR_4 !!! Z.to_nat (1 + 1)) with 12.
  change (GENERATOR_4 !!! Z.to_nat (2 + 1)) with 8.
  change (GENERATOR_4 !!! Z.to_nat (3 + 1)) with 7.
  rewrite !Z.lxor_0_r, Z.lxor_0_l.
  by rewrite (Z.lxor_comm c).
Qed.

Lemma vxor_nilpotent (v : list Z) : reg4 v -> vxor v v = [0; 0; 0; 0].
Proof.
  intros Hv.
  destruct (reg4_inv v Hv) as (a & b & c & d & -> & _).
  unfold vxor. simpl. by rewrite !Z.lxor_nilpotent.
Qed.

Lemma reg4_rem_step4 (h : list Z) (c : Z) :
  reg4 h -> field_elem 4 c -> reg4 (rem_step4 h c).
Proof. intros Hh Hc. rewrite rem_step4_mulx4 by done. auto with reg4. Qed.

#[local] Hint Resolve reg4_rem_step4 : reg4.

Lemma mulx4_shift (a b c : Z) :
  mulx4 [0; a; b; c] = [a; b; c; 0].
Proof.
  simpl. rewrite !prod4_zero by lia. by rewrite !Z.lxor_0_r.
Qed.

(** Dividing four more symbols [p] into a window [h]: the window is
    multiplied by x^4 and [p] is added. *)
Lemma rem_fold_parity (h p : list Z) :
  reg4 h -> reg4 p ->
  fold_left rem_step4 p h = vxor (mulx4_pow4 h) p.
Proof.
  intros Hh Hp.
  destruct (reg4_inv p Hp) as (p0 & p1 & p2 & p3 & -> & H0 & H1 & H2 & H3).
  apply field_elem_4 in H0, H1, H2, H3.
  simpl fold_left.
  rewrite (rem_step4_mulx4 h) by done.
  rewrite (rem_step4_mulx4 (vxor _ _)) by auto with reg4.
  rewrite (rem_step4_mulx4 (vxor _ _)) by auto 7 with reg4.
  rewrite (rem_step4_mulx4 (vxor _ _)) by auto 9 with reg4.
  rewrite !mulx4_additive by auto 9 with reg4.
  rewrite !mulx4_shift.
  fold (mulx4_pow4 h).
  assert (Hw : reg4 (mulx4_pow4 h)) by (unfold mulx4_pow4; auto 6 with reg4).
  destruct (reg4_inv _ Hw) as (a & b & c & d & -> & _).
  unfold vxor. simpl. by rewrite !Z.lxor_0_r.
Qed.

Lemma lfsr4_rem_step4 (h : list Z) (x : Z) :
  reg4 h -> field_elem 4 x ->
  lfsr4 (mulx4_pow4 h) x = mulx4_pow4 (rem_step4 h x).
Proof.
  intros Hh Hx.
  assert (Hw : reg4 (mulx4_pow4 h)) by (unfold mulx4_pow4; auto 6 with reg4).
  rewrite lfsr4_mulx4, rem_step4_mulx4 by done.
  rewrite mulx4_pow4_additive by auto with reg4.
  by rewrite mulx4_pow4_unit.
Qed.

(** The register of the encoder is x^4 times the division window, and the
    message followed by the register leaves no remainder. *)
Lemma rem_lfsr (msg h : list Z) :
  Forall (field_elem 4) msg -> reg4 h ->
  fold_left rem_step4 (msg ++ fold_left lfsr4 msg (mulx4_pow4 h)) h
  = [0; 0; 0; 0].
Proof.
  revert h. induction msg as [|x msg IH]; intros h Hmsg Hh.
  - simpl.
    assert (Hw : reg4 (mulx4_pow4 h)) by (unfold mulx4_pow4; auto 6 with reg4).
    rewrite rem_fold_parity by done. by apply vxor_nilpotent.
  - apply Forall_cons in Hmsg as [Hx Hmsg]. simpl.
    rewrite lfsr4_rem_step4 by done.
    apply IH; auto with reg4.
Qed.

Lemma lfsr4_zero_run (n : nat) :
  fold_left lfsr4 (replicate n 0) [0; 0; 0; 0] = [0; 0; 0; 0].
Proof. induction n as [|n IH]; [done|]. simpl. exact IH. Qed.

(** ** Field addition for m = 4 *)

(** C8: for m = 4 and field elements a, b, c below 16, [galois_field_add]
    is the bitwise exclusive or of its operands; it is hence commutative
    and associative, has 0 as identity and every element is its own
    inverse. *)
Theorem galois_field_add_4_is_xor (a b c : Z) :
  0 <= a < 16 -> 0 <= b < 16 -> 0 <= c < 16 ->
  galois_field_add 4 a b = Done (Z.lxor a b) /\
  galois_field_add 4 a b = galois_field_add 4 b a /\
  (x ← galois_field_add 4 a b; galois_field_add 4 x c)
  = (y ← galois_field_add 4 b c; galois_field_add 4 a y) /\
  galois_field_add 4 a 0 = Done a /\
  galois_field_add 4 a a = Done 0.
Proof.
  intros Ha Hb Hc.
  pose proof (lxor_below16 a b Ha Hb).
  pose proof (lxor_below16 b c Hb Hc).
  repeat split.
  - by apply add4_xor.
  - rewrite !add4_xor by done. f_equal. apply Z.lxor_comm.
  - rewrite (add4_xor a b), (add4_xor b c) by done. simpl.
    rewrite !add4_xor by done. f_equal. apply Z.lxor_assoc.
  - rewrite add4_xor by (done || lia). f_equal. apply Z.lxor_0_r.
  - rewrite add4_xor by done. f_equal. apply Z.lxor_nilpotent.
Qed.

Lemma galois_field_add_4_is_xor_witness :
  (0 <= 9 < 16 /\ 0 <= 12 < 16 /\ 0 <= 7 < 16) /\
  galois_field_add 4 9 12 = Done (Z.lxor 9 12) /\
  galois_field_add 4 9 12 = galois_field_add 4 12 9 /\
  (x ← galois_field_add 4 9 12; galois_field_add 4 x 7)
  = (y ← galois_field_add 4 12 7; galois_field_add 4 9 y) /\
  galois_field_add 4 9 0 = Done 9 /\
  galois_field_add 4 9 9 = Done 0.
Proof.
  split; [lia|].
  apply (galois_field_add_4_is_xor 9 12 7); lia.
Defined.

(** ** The product table for m = 4 *)

(** C10: every column j of [GALOIS_PRODUCTS_4] is the multiplication of
    GF(16) by one fixed element, coefficient j of the generator: row 0 is
    zero, the column is additive over the exclusive or, and the entry for
    a is the log/antilog product of a by the coefficient. *)
Theorem galois_products_4_column_linear (a b j : Z) :
  0 <= a < 16 -> 0 <= b < 16 -> 0 <= j < 4 ->
  table_get GALOIS_PRODUCTS_4 0 j = Done 0 /\
  (exists pa pb,
     table_get GALOIS_PRODUCTS_4 a j = Done pa /\
     table_get GALOIS_PRODUCTS_4 b j = Done pb /\
     table_get GALOIS_PRODUCTS_4 (Z.lxor a b) j = Done (Z.lxor pa pb)) /\
  galois_field_multiply_generator 4 a j
  = Done (gf16_mul a (GENERATOR_4 !!! Z.to_nat (j + 1))).
Proof.
  intros Ha Hb Hj.
  pose proof (lxor_below16 a b Ha Hb) as Hab.
  change (table_get GALOIS_PRODUCTS_4)
    with (galois_field_multiply_generator 4).
  rewrite !mul4_prod by (done || lia).
  split; [by rewrite prod4_zero|].
  split.
  - exists (prod4 a j), (prod4 b j).
    by rewrite prod4_additive.
  - by rewrite prod4_gf16_mul.
Qed.

Lemma galois_products_4_column_linear_witness :
  (0 <= 5 < 16 /\ 0 <= 11 < 16 /\ 0 <= 2 < 4) /\
  table_get GALOIS_PRODUCTS_4 0 2 = Done 0 /\
  (exists pa pb,
     table_get GALOIS_PRODUCTS_4 5 2 = Done pa /\
     table_get GALOIS_PRODUCTS_4 11 2 = Done pb /\
     table_get GALOIS_PRODUCTS_4 (Z.lxor 5 11) 2 = Done (Z.lxor pa pb)) /\
  galois_field_multiply_generator 4 5 2
  = Done (gf16_mul 5 (GENERATOR_4 !!! Z.to_nat (2 + 1))).
Proof.
  split; [lia|].
  apply (galois_products_4_column_linear 5 11 2); lia.
Defined.

(** The generator tabulated for m = 4 has the first four powers of the
    primitive element as its roots. *)
Lemma generator_4_roots :
  let alpha := spec_antilog 4 PRIMITIVE_POLY_4 in
  spec_poly_mul gf16_mul
    (spec_poly_mul gf16_mul [1; alpha 1] [1; alpha 2])
    (spec_poly_mul gf16_mul [1; alpha 3] [1; alpha 4])
  = GENERATOR_4.
Proof. by vm_compute. Qed.

(** ** Range of the field operations *)

Lemma lfsr_step_5 (s a b c d e : Z) (rest : list Z) :
  lfsr_step 5 s (a :: b :: c :: d :: e :: rest)
  = Done (0 :: 0 :: 0 :: 0 :: 0 :: rest).
Proof. done. Qed.

(** For the widths m = 4 and m = 5 the two field operations map field
    elements to field elements (for every generator coefficient index
    below t, the table for m = 4 having four columns), and one encoder step
    maps a buffer of at least m field elements to field elements.  Nothing
    in the encoder makes the buffer hold field elements in the first
    place. *)
Theorem field_ops_preserve_range (m t a b j s : Z) (parity : list Z) :
  m = 4 \/ m = 5 -> (m = 4 -> t <= 4) ->
  field_elem m a -> field_elem m b -> 0 <= j < t ->
  field_elem m s -> Forall (field_elem m) parity ->
  m <= Z.of_nat (length parity) ->
  (exists v, galois_field_add m a b = Done v /\ field_elem m v) /\
  (exists w, galois_field_multiply_generator m a j = Done w /\
             field_elem m w) /\
  (exists parity', lfsr_step m s parity = Done parity' /\
                   length parity' = length parity /\
                   Forall (field_elem m) parity').
Proof.
  intros [-> | ->] Ht Ha Hb Hj Hs Hp Hl.
  - specialize (Ht eq_refl).
    apply field_elem_4 in Ha, Hb.
    split; [|split].
    + exists (Z.lxor a b). rewrite add4_xor by done.
      split; [done|]. by apply field_elem_4, lxor_below16.
    + exists (prod4 a j). rewrite mul4_prod by (done || lia).
      split; [done|]. apply field_elem_4, prod4_below16; (done || lia).
    + destruct parity as [|p0 [|p1 [|p2 [|p3 rest]]]]; simpl in Hl; try lia.
      change (p0 :: p1 :: p2 :: p3 :: rest)
        with ([p0; p1; p2; p3] ++ rest) in *.
      apply Forall_app in Hp as [Hr Hrest].
      assert (Hreg : reg4 [p0; p1; p2; p3]) by done.
      exists (lfsr4 [p0; p1; p2; p3] s ++ rest).
      rewrite lfsr_step_reg4 by done.
      split; [done|]. split; [done|].
      apply Forall_app. split; [|done].
      by apply (lfsr4_reg4 _ _ Hreg Hs).
  - assert (H0 : field_elem 5 0) by (unfold field_elem; simpl; lia).
    split; [|split].
    + by exists 0.
    + by exists 0.
    + destruct parity as [|p0 [|p1 [|p2 [|p3 [|p4 rest]]]]];
        simpl in Hl; try lia.
      exists (0 :: 0 :: 0 :: 0 :: 0 :: rest).
      rewrite lfsr_step_5. split; [done|]. split; [done|].
      rewrite !Forall_cons in Hp. rewrite !Forall_cons. tauto.
Qed.

Lemma field_ops_preserve_range_witness :
  (exists v, galois_field_add 4 9 12 = Done v /\ field_elem 4 v) /\
  (exists w, galois_field_multiply_generator 4 9 3 = Done w /\
             field_elem 4 w) /\
  (exists parity', lfsr_step 4 6 [1; 15; 0; 7] = Done parity' /\
                   length parity' = length [1; 15; 0; 7] /\
                   Forall (field_elem 4) parity').
Proof.
  apply (field_ops_preserve_range 4 4 9 12 3 6 [1; 15; 0; 7]).
  - left. reflexivity.
  - lia.
  - unfold field_elem. simpl. lia.
  - unfold field_elem. simpl. lia.
  - lia.
  - unfold field_elem. simpl. lia.
  - repeat (apply Forall_cons_2; [unfold field_elem; simpl; lia|]).
    apply Forall_nil_2.
  - simpl. lia.
Defined.

(** ** The encoder on a cleared parity buffer (m = 4, t = 4) *)

Lemma spec_poly_rem_4 (cw : list Z) :
  spec_poly_rem gf16_mul GENERATOR_4 cw = fold_left rem_step4 cw [0; 0; 0; 0].
Proof. done. Qed.

Lemma encode_cleared (msg : list Z) (k : Z) (rest : list Z) :
  0 <= k <= 11 -> k <= Z.of_nat (length msg) ->
  Forall (field_elem 4) (take (Z.to_nat k) msg) ->
  rs_encode_message msg k 4 4 ([0; 0; 0; 0] ++ rest)
  = Done (0, fold_left lfsr4 (take (Z.to_nat k) msg) [0; 0; 0; 0] ++ rest).
Proof.
  intros Hk Hl Hmsg.
  rewrite rs_encode_message_4 by (done || lia || apply reg4_zero).
  unfold padded. by rewrite fold_left_app, lfsr4_zero_run.
Qed.

(** When the caller hands in a cleared parity buffer, the message followed
    by the four parity symbols is a multiple of the generator. *)
Lemma encode_cleared_divisible (msg : list Z) (k : Z) (rest : list Z) :
  0 <= k <= 11 -> k <= Z.of_nat (length msg) ->
  Forall (field_elem 4) (take (Z.to_nat k) msg) ->
  exists p,
    rs_encode_message msg k 4 4 ([0; 0; 0; 0] ++ rest) = Done (0, p ++ rest) /\
    reg4 p /\
    spec_poly_rem gf16_mul GENERATOR_4 (take (Z.to_nat k) msg ++ p)
    = [0; 0; 0; 0].
Proof.
  intros Hk Hl Hmsg.
  exists (fold_left lfsr4 (take (Z.to_nat k) msg) [0; 0; 0; 0]).
  split; [by apply encode_cleared|].
  split; [apply fold_lfsr4_reg4; (done || apply reg4_zero)|].
  rewrite spec_poly_rem_4.
  exact (rem_lfsr (take (Z.to_nat k) msg) [0; 0; 0; 0] Hmsg reg4_zero).
Qed.

(** On a cleared buffer an all-zero message has all-zero parity. *)
Lemma encode_cleared_zero_message (k : Z) (rest : list Z) :
  0 <= k <= 11 ->
  rs_encode_message (replicate (Z.to_nat k) 0) k 4 4 ([0; 0; 0; 0] ++ rest)
  = Done (0, [0; 0; 0; 0] ++ rest).
Proof.
  intros Hk.
  rewrite encode_cleared.
  - by rewrite firstn_all2, lfsr4_zero_run by (rewrite length_replicate; lia).
  - done.
  - rewrite length_replicate. lia.
  - apply Forall_take, Forall_replicate, field_elem_4. lia.
Qed.

Lemma vxor_swap4 (u v w z : list Z) :
  reg4 u -> reg4 v -> reg4 w -> reg4 z ->
  vxor (vxor u v) (vxor w z) = vxor (vxor u w) (vxor v z).
Proof.
  intros Hu Hv Hw Hz.
  destruct (reg4_inv u Hu) as (u0 & u1 & u2 & u3 & -> & _).
  destruct (reg4_inv v Hv) as (v0 & v1 & v2 & v3 & -> & _).
  destruct (reg4_inv w Hw) as (w0 & w1 & w2 & w3 & -> & _).
  destruct (reg4_inv z Hz) as (z0 & z1 & z2 & z3 & -> & _).
  unfold vxor. simpl.
  by rewrite (lxor_swap4 u0), (lxor_swap4 u1), (lxor_swap4 u2),
    (lxor_swap4 u3).
Qed.

Lemma lfsr4_additive (r1 r2 : list Z) (s1 s2 : Z) :
  reg4 r1 -> reg4 r2 -> field_elem 4 s1 -> field_elem 4 s2 ->
  lfsr4 (vxor r1 r2) (Z.lxor s1 s2) = vxor (lfsr4 r1 s1) (lfsr4 r2 s2).
Proof.
  intros H1 H2 Hs1 Hs2.
  assert (field_elem 4 (Z.lxor s1 s2)).
  { apply field_elem_4, lxor_below16; by apply field_elem_4. }
  rewrite !lfsr4_mulx4 by auto with reg4.
  rewrite mulx4_additive, gen4_additive by done.
  apply vxor_swap4; auto with reg4.
Qed.

Lemma fold_lfsr4_additive (m1 m2 r1 r2 : list Z) :
  length m1 = length m2 ->
  Forall (field_elem 4) m1 -> Forall (field_elem 4) m2 ->
  reg4 r1 -> reg4 r2 ->
  fold_left lfsr4 (zip_with Z.lxor m1 m2) (vxor r1 r2)
  = vxor (fold_left lfsr4 m1 r1) (fold_left lfsr4 m2 r2).
Proof.
  revert m2 r1 r2.
  induction m1 as [|x m1 IH]; intros [|y m2] r1 r2 Hl H1 H2 Hr1 Hr2;
    try done.
  apply Forall_cons in H1 as [Hx H1]. apply Forall_cons in H2 as [Hy H2].
  simpl. rewrite lfsr4_additive by done.
  apply IH; auto with reg4.
Qed.

(** On a cleared buffer the parity of the sum of two messages is the sum
    of their parities. *)
Lemma encode_cleared_additive (m1 m2 : list Z) (k : Z) (rest : list Z) :
  0 <= k <= 11 ->
  k <= Z.of_nat (length m1) -> k <= Z.of_nat (length m2) ->
  Forall (field_elem 4) (take (Z.to_nat k) m1) ->
  Forall (field_elem 4) (take (Z.to_nat k) m2) ->
  exists p1 p2,
    rs_encode_message m1 k 4 4 ([0; 0; 0; 0] ++ rest) = Done (0, p1 ++ rest) /\
    rs_encode_message m2 k 4 4 ([0; 0; 0; 0] ++ rest) = Done (0, p2 ++ rest) /\
    rs_encode_message (zip_with Z.lxor m1 m2) k 4 4 ([0; 0; 0; 0] ++ rest)
    = Done (0, vxor p1 p2 ++ rest).
Proof.
  intros Hk Hl1 Hl2 H1 H2.
  exists (fold_left lfsr4 (take (Z.to_nat k) m1) [0; 0; 0; 0]),
         (fold_left lfsr4 (take (Z.to_nat k) m2) [0; 0; 0; 0]).
  assert (Hz : take (Z.to_nat k) (zip_with Z.lxor m1 m2)
               = zip_with Z.lxor (take (Z.to_nat k) m1) (take (Z.to_nat k) m2))
    by apply zip_with_take.
  rewrite !encode_cleared; try done.
  - split; [done|]. split; [done|].
    rewrite Hz, <- fold_lfsr4_additive;
      [done| rewrite !length_take; lia |done|done|apply reg4_zero..].
  - rewrite length_zip_with. lia.
  - rewrite Hz.
    clear Hz Hl1 Hl2. revert H1 H2.
    generalize (take (Z.to_nat k) m1), (take (Z.to_nat k) m2).
    intros l1. induction l1 as [|x l1 IH]; intros [|y l2] H1 H2;
      simpl; try by constructor.
    apply Forall_cons in H1 as [Hx H1]. apply Forall_cons in H2 as [Hy H2].
    constructor; [|by apply IH].
    apply field_elem_4, lxor_below16; by apply field_elem_4.
Qed.

(** The function has a single exit, [return 0]. *)
Lemma rs_encode_message_returns_0 (msg : list Z) (k t m : Z)
    (parity parity' : list Z) (r : Z) :
  rs_encode_message msg k t m parity = Done (r, parity') -> r = 0.
Proof.
  unfold rs_encode_message. intros H.
  destruct (int_add k t); [|done]. simpl in H.
  destruct (shl1 m); [|done]. simpl in H.
  destruct (int_sub _ _); [|done]. simpl in H.
  destruct (pad_message _ _ _); [|done]. simpl in H.
  destruct (int_add _ _); [|done]. simpl in H.
  destruct (for_range _ _ _ _); [|done]. simpl in H.
  by inversion H.
Qed.

(** ** The encoder on a parity buffer that was not cleared *)

Lemma vxor_zero_l (r : list Z) : reg4 r -> vxor [0; 0; 0; 0] r = r.
Proof.
  intros Hr. destruct (reg4_inv r Hr) as (a & b & c & d & -> & _).
  unfold vxor. simpl. by rewrite !Z.lxor_0_l.
Qed.

Lemma zip_lxor_zero_r (l : list Z) :
  zip_with Z.lxor l (replicate (length l) 0) = l.
Proof.
  induction l as [|x l IH]; [done|]. simpl. by rewrite Z.lxor_0_r, IH.
Qed.

(** The prior contents [r] of the buffer are carried through the eleven
    steps of the loop and added to the parity of the message. *)
Lemma encode_used_buffer (msg : list Z) (k : Z) (r rest : list Z) :
  0 <= k <= 11 -> k <= Z.of_nat (length msg) ->
  Forall (field_elem 4) (take (Z.to_nat k) msg) -> reg4 r ->
  rs_encode_message msg k 4 4 (r ++ rest)
  = Done (0, vxor (fold_left lfsr4 (take (Z.to_nat k) msg) [0; 0; 0; 0])
                  (fold_left lfsr4 (replicate 11 0) r) ++ rest).
Proof.
  intros Hk Hl Hmsg Hr.
  rewrite rs_encode_message_4 by (done || lia).
  assert (Hlen : length (padded msg k (15 - (k + 4))) = 11%nat).
  { pose proof (padded_length msg k (15 - (k + 4))). lia. }
  assert (Hp : Forall (field_elem 4) (padded msg k (15 - (k + 4))))
    by by apply padded_field_elem.
  rewrite <- (zip_lxor_zero_r (padded msg k (15 - (k + 4)))) at 1.
  rewrite <- (vxor_zero_l r) at 1 by done.
  rewrite Hlen, fold_lfsr4_additive;
    [|by rewrite length_replicate|done
     |apply Forall_replicate, field_elem_4; lia|apply reg4_zero|done].
  unfold padded at 1. by rewrite fold_left_app, lfsr4_zero_run.
Qed.

Lemma prod4_3_zero (a : Z) : 0 <= a < 16 -> prod4 a 3 = 0 -> a = 0.
Proof.
  intros Ha H.
  assert (Hb : (negb (prod4 a 3 =? 0) || (a =? 0)) = true).
  { clear H. revert a Ha.
    apply (forallb_seqZ (fun a => negb (prod4 a 3 =? 0) || (a =? 0))).
    by vm_compute. }
  rewrite H in Hb. simpl in Hb. lia.
Qed.

(** Multiplication by x modulo the generator has no kernel: the constant
    coefficient of the generator is not zero. *)
Lemma lfsr4_zero_inv (r : list Z) :
  reg4 r -> lfsr4 r 0 = [0; 0; 0; 0] -> r = [0; 0; 0; 0].
Proof.
  intros Hr.
  destruct (reg4_inv r Hr) as (a & b & c & d & -> & Ha & Hb & Hc & Hd).
  simpl. rewrite !Z.lxor_0_l. intros H.
  injection H as H0 H1 H2 H3.
  apply prod4_3_zero in H3; [|done]. subst a.
  rewrite prod4_zero, Z.lxor_0_r in H0, H1, H2 by lia.
  by subst.
Qed.

Lemma lfsr4_zero_run_inv (n : nat) (r : list Z) :
  reg4 r -> fold_left lfsr4 (replicate n 0) r = [0; 0; 0; 0] ->
  r = [0; 0; 0; 0].
Proof.
  revert r. induction n as [|n IH]; intros r Hr H; [done|].
  simpl in H. apply IH in H.
  - by apply lfsr4_zero_inv.
  - apply lfsr4_reg4; [done|]. apply field_elem_4. lia.
Qed.

Lemma vxor_cancel_l (u v : list Z) :
  reg4 u -> reg4 v -> vxor u v = u -> v = [0; 0; 0; 0].
Proof.
  intros Hu Hv.
  destruct (reg4_inv u Hu) as (a & b & c & d & -> & _).
  destruct (reg4_inv v Hv) as (a' & b' & c' & d' & -> & _).
  unfold vxor. simpl. intros H. injection H as H0 H1 H2 H3.
  assert (Hc : forall x y : Z, Z.lxor x y = x -> y = 0).
  { intros x y Hxy.
    assert (Hy : y = Z.lxor x (Z.lxor x y))
      by by rewrite <- Z.lxor_assoc, Z.lxor_nilpotent, Z.lxor_0_l.
    by rewrite Hxy, Z.lxor_nilpotent in Hy. }
  by rewrite (Hc _ _ H0), (Hc _ _ H1), (Hc _ _ H2), (Hc _ _ H3).
Qed.

(** Whatever the valid message, the parity written over a buffer that held
    field elements not all zero differs from the parity written over a
    cleared buffer. *)
Lemma encode_used_buffer_differs (msg : list Z) (k : Z) (r rest : list Z) :
  0 <= k <= 11 -> k <= Z.of_nat (length msg) ->
  Forall (field_elem 4) (take (Z.to_nat k) msg) ->
  reg4 r -> r <> [0; 0; 0; 0] ->
  rs_encode_message msg k 4 4 (r ++ rest)
  <> rs_encode_message msg k 4 4 ([0; 0; 0; 0] ++ rest).
Proof.
  intros Hk Hl Hmsg Hr Hnz.
  rewrite encode_used_buffer, encode_cleared by done.
  intros H. apply Hnz.
  apply Done_inj, pair_equal_spec in H as [_ H].
  apply app_inv_tail in H.
  apply vxor_cancel_l in H.
  - by apply (lfsr4_zero_run_inv 11).
  - apply fold_lfsr4_reg4; [apply reg4_zero|done].
  - apply fold_lfsr4_reg4; [done|].
    apply Forall_replicate, field_elem_4. lia.
Qed.

Lemma fold_rem_step4_reg4 (msg h : list Z) :
  Forall (field_elem 4) msg -> reg4 h -> reg4 (fold_left rem_step4 msg h).
Proof.
  revert h. induction msg as [|x msg IH]; intros h Hmsg Hh; [done|].
  apply Forall_cons in Hmsg as [Hx Hmsg]. simpl.
  apply IH; auto with reg4.
Qed.

(** Started from x^4 times a division window, the encoder register stays
    x^4 times the window of the long division of the same symbols. *)
Lemma lfsr_fold_pow4 (msg h : list Z) :
  Forall (field_elem 4) msg -> reg4 h ->
  fold_left lfsr4 msg (mulx4_pow4 h)
  = mulx4_pow4 (fold_left rem_step4 msg h).
Proof.
  revert h. induction msg as [|x msg IH]; intros h Hmsg Hh; [done|].
  apply Forall_cons in Hmsg as [Hx Hmsg]. simpl.
  rewrite lfsr4_rem_step4 by done.
  apply IH; auto with reg4.
Qed.

Lemma vxor_cancel (u v : list Z) :
  reg4 u -> reg4 v -> vxor u (vxor u v) = v.
Proof.
  intros Hu Hv.
  destruct (reg4_inv u Hu) as (a & b & c & d & -> & _).
  destruct (reg4_inv v Hv) as (a' & b' & c' & d' & -> & _).
  unfold vxor. simpl.
  by rewrite <- !Z.lxor_assoc, !Z.lxor_nilpotent, !Z.lxor_0_l.
Qed.

(** The remainder of the codeword written over a used buffer is what the
    eleven steps of the loop carry over from the prior contents [r]; it is
    zero only if [r] was. *)
Lemma encode_used_buffer_remainder (msg : list Z) (k : Z) (r rest : list Z) :
  0 <= k <= 11 -> k <= Z.of_nat (length msg) ->
  Forall (field_elem 4) (take (Z.to_nat k) msg) -> reg4 r ->
  exists p,
    rs_encode_message msg k 4 4 (r ++ rest) = Done (0, p ++ rest) /\
    reg4 p /\
    spec_poly_rem gf16_mul GENERATOR_4 (take (Z.to_nat k) msg ++ p)
    = fold_left lfsr4 (replicate 11 0) r /\
    (r <> [0; 0; 0; 0] ->
     spec_poly_rem gf16_mul GENERATOR_4 (take (Z.to_nat k) msg ++ p)
     <> [0; 0; 0; 0]).
Proof.
  intros Hk Hl Hmsg Hr.
  set (sym := take (Z.to_nat k) msg) in *.
  assert (Hd : reg4 (fold_left lfsr4 (replicate 11 0) r)).
  { apply fold_lfsr4_reg4; [done|].
    apply Forall_replicate, field_elem_4. lia. }
  assert (Hw : reg4 (fold_left rem_step4 sym [0; 0; 0; 0])).
  { apply fold_rem_step4_reg4; [done|apply reg4_zero]. }
  assert (Hp : fold_left lfsr4 sym [0; 0; 0; 0]
               = mulx4_pow4 (fold_left rem_step4 sym [0; 0; 0; 0])).
  { exact (lfsr_fold_pow4 sym [0; 0; 0; 0] Hmsg reg4_zero). }
  assert (Hq : reg4 (fold_left lfsr4 sym [0; 0; 0; 0])).
  { apply fold_lfsr4_reg4; [apply reg4_zero|done]. }
  exists (vxor (fold_left lfsr4 sym [0; 0; 0; 0])
               (fold_left lfsr4 (replicate 11 0) r)).
  split; [by apply encode_used_buffer|].
  split; [by apply reg4_vxor|].
  assert (Hrem : spec_poly_rem gf16_mul GENERATOR_4
                   (sym ++ vxor (fold_left lfsr4 sym [0; 0; 0; 0])
                                (fold_left lfsr4 (replicate 11 0) r))
                 = fold_left lfsr4 (replicate 11 0) r).
  { rewrite spec_poly_rem_4, fold_left_app.
    rewrite rem_fold_parity by (done || by apply reg4_vxor).
    rewrite <- Hp. by apply vxor_cancel. }
  split; [done|].
  intros Hnz. rewrite Hrem. intros Hz. apply Hnz.
  by apply (lfsr4_zero_run_inv 11).
Qed.

(** ** The parity buffer is taken as found *)

(** C4: the encoder does not clear the parity register: it starts from
    whatever the caller's buffer holds.  The demonstration message of
    [main.c] encoded with the same (k, t, m) gives different parity for
    different prior contents of the buffer; in particular a second call on
    the buffer the first call has filled does not repeat its result. *)
Theorem parity_depends_on_prior_buffer :
  let msg := [2; 5; 6; 6; 0; 11; 15; 12; 1; 11] in
  rs_encode_message msg 10 4 4 [0; 0; 0; 0] = Done (0, [6; 6; 8; 4]) /\
  rs_encode_message msg 10 4 4 [1; 0; 0; 0] = Done (0, [0; 14; 6; 1]) /\
  rs_encode_message msg 10 4 4 [6; 6; 8; 4] = Done (0, [5; 10; 9; 15]).
Proof. repeat split; by vm_compute. Qed.

(** C1: on the valid input m = 4, t = 4, k = 10 with the demonstration
    message and a parity buffer that holds 1, 0, 0, 0 on entry, the call
    succeeds and the message followed by the parity it produced leaves the
    remainder 6, 8, 14, 5 in the division by the generator: it is the
    product of the quotient and the generator plus that remainder. *)
Theorem codeword_not_divisible_on_used_buffer :
  let msg := [2; 5; 6; 6; 0; 11; 15; 12; 1; 11] in
  let quot := [2; 12; 14; 0; 0; 0; 3; 8; 4; 11] in
  Forall (field_elem 4) msg /\ 10 + 4 <= 2 ^ 4 - 1 /\
  10 <= RS_MAX_MESSAGE_LENGTH /\ 4 <= RS_MAX_PARITY_SYMBOLS /\
  rs_encode_message msg 10 4 4 [1; 0; 0; 0] = Done (0, [0; 14; 6; 1]) /\
  spec_poly_rem gf16_mul GENERATOR_4 (msg ++ [0; 14; 6; 1]) = [6; 8; 14; 5] /\
  spec_poly_quot gf16_mul GENERATOR_4 (msg ++ [0; 14; 6; 1]) = quot /\
  zip_with Z.lxor (spec_poly_mul gf16_mul quot GENERATOR_4)
    (replicate 10 0 ++ [6; 8; 14; 5])
  = msg ++ [0; 14; 6; 1].
Proof.
  repeat split; try by vm_compute.
  repeat (apply Forall_cons_2; [by vm_compute|]). apply Forall_nil_2.
Qed.

(** C6: for the valid configuration m = 4, t = 4, k = 11, the all-zero
    message encoded into a parity buffer that holds 1, 0, 0, 0 on entry has
    the parity 6, 8, 14, 5, not all zero. *)
Theorem zero_message_nonzero_parity_on_used_buffer :
  rs_encode_message (replicate 11 0) 11 4 4 [1; 0; 0; 0]
  = Done (0, [6; 8; 14; 5]).
Proof. by vm_compute. Qed.

(** C7: for m = 4, t = 4, k = 3 and the messages 1, 2, 3 and 4, 5, 6, each
    encoded into a parity buffer that holds 1, 0, 0, 0 on entry, the sum of
    the two parities is 8, 14, 11, 3 while the parity of the sum of the
    messages is 14, 6, 5, 6. *)
Theorem encode_not_additive_on_used_buffer :
  let m1 := [1; 2; 3] in
  let m2 := [4; 5; 6] in
  rs_encode_message m1 3 4 4 [1; 0; 0; 0] = Done (0, [4; 4; 9; 8]) /\
  rs_encode_message m2 3 4 4 [1; 0; 0; 0] = Done (0, [12; 10; 2; 11]) /\
  rs_encode_message (zip_with Z.lxor m1 m2) 3 4 4 [1; 0; 0; 0]
  = Done (0, [14; 6; 5; 6]) /\
  vxor [4; 4; 9; 8] [12; 10; 2; 11] = [8; 14; 11; 3].
Proof. repeat split; by vm_compute. Qed.

(** C9: the values held in the parity register are not always field
    elements: the register is the caller's buffer as found.  On the valid
    input m = 4, t = 4, k = 10 with the demonstration message and a buffer
    that holds 200, 0, 0, 0 on entry, the first step reads the register
    cell 200, which is not below 2^4, and passes it to [galois_field_add],
    where it indexes the 16-column addition table out of bounds; the same
    happens when the value sits in another cell of the register. *)
Theorem register_holds_non_field_element_on_used_buffer :
  let msg := [2; 5; 6; 6; 0; 11; 15; 12; 1; 11] in
  Forall (field_elem 4) msg /\ 10 + 4 <= 2 ^ 4 - 1 /\
  10 <= RS_MAX_MESSAGE_LENGTH /\ 4 <= RS_MAX_PARITY_SYMBOLS /\
  2 ^ 4 <= 200 /\
  load BufParity [200; 0; 0; 0] 0 = Done 200 /\
  galois_field_add 4 0 200 = Undefined (OutOfBounds BufTable 200) /\
  lfsr_step 4 0 [200; 0; 0; 0] = Undefined (OutOfBounds BufTable 200) /\
  rs_encode_message msg 10 4 4 [200; 0; 0; 0]
  = Undefined (OutOfBounds BufTable 200) /\
  rs_encode_message msg 10 4 4 [0; 200; 0; 0]
  = Undefined (OutOfBounds BufTable 200).
Proof.
  repeat split; try by vm_compute.
  repeat (apply Forall_cons_2; [by vm_compute|]). apply Forall_nil_2.
Qed.

(** ** Absent validation *)

(** C2: calls that violate a precondition are not rejected.  For the
    unsupported width m = 3 the call returns 0 and overwrites the parity
    buffer with 255; for t = 9, above [RS_MAX_PARITY_SYMBOLS] and without
    a generator, it returns 0 and writes parity; for m = 6 the padding runs
    past the end of [msgZ]; for a message symbol 16 with m = 4 the
    addition table is read out of bounds. *)
Theorem precondition_violations_not_reported :
  rs_encode_message [1; 2] 2 2 3 [0; 0; 0] = Done (0, [255; 255; 255]) /\
  rs_encode_message [1; 2] 2 9 4 (replicate 9 0)
  = Done (0, [11; 0; 6; 11; 0; 0; 0; 0; 0]) /\
  rs_encode_message [1; 2] 2 2 6 (replicate 6 0)
  = Undefined (OutOfBounds BufMsgZ 24) /\
  rs_encode_message [1; 2; 16] 3 4 4 [0; 0; 0; 0]
  = Undefined (OutOfBounds BufTable 16).
Proof. repeat split; by vm_compute. Qed.

(** ** Loop bounds *)

(** C3: the coefficient loop and the register shift run to m, not to t.
    With m = 4 and t = 2 a step computes four products; on a buffer of
    t = 2 cells the shift reads past its end, and on a larger buffer four
    cells are written.  With m = 4 and t = 8 only four of the eight cells
    are written. *)
Theorem lfsr_bounds_are_m_not_t :
  let msg := [1; 2; 3; 4; 5; 6; 7; 8; 9] in
  compute_rhs 4 1 = Done [13; 12; 8; 7; 0; 0; 0; 0] /\
  rs_encode_message msg 9 2 4 [0; 0] = Undefined (OutOfBounds BufParity 2) /\
  rs_encode_message msg 9 2 4 [0; 0; 0; 0] = Done (0, [0; 7; 15; 7]) /\
  rs_encode_message (take 7 msg) 7 8 4 (replicate 8 9)
  = Done (0, [2; 4; 13; 3; 9; 9; 9; 9]).
Proof. repeat split; by vm_compute. Qed.

(** ** The padded message buffer *)

Lemma zero_loop_oob (n i len : nat) :
  (i <= len < i + n)%nat ->
  for_loop n (Z.of_nat i) (fun i msgZ => store BufMsgZ msgZ i 0)
    (replicate len 0)
  = Undefined (OutOfBounds BufMsgZ (Z.of_nat len)).
Proof.
  revert i. induction n as [|n IH]; intros i Hi; [lia|].
  simpl. destruct (decide (i = len)) as [->|Hne].
  - by rewrite store_oob by (rewrite length_replicate; lia).
  - rewrite store_ok by (rewrite length_replicate; lia).
    rewrite Nat2Z.id, list_insert_id by (apply lookup_replicate_2; lia).
    simpl. replace (Z.of_nat i + 1) with (Z.of_nat (S i)) by lia.
    apply IH. lia.
Qed.

Lemma copy_loop_oob (msg msgZ : list Z) (sh n i : nat) :
  (i + n <= length msg)%nat ->
  (sh + i <= length msgZ < sh + i + n)%nat ->
  Z.of_nat (length msgZ) < 2 ^ 31 ->
  for_loop n (Z.of_nat i)
    (fun i msgZ =>
       idx ← int_add i (Z.of_nat sh);
       v ← load BufMsg msg i;
       store BufMsgZ msgZ idx v)
    msgZ
  = Undefined (OutOfBounds BufMsgZ (Z.of_nat (length msgZ))).
Proof.
  revert i msgZ. induction n as [|n IH]; intros i msgZ Hm Hl H31; [lia|].
  destruct (lookup_lt_is_Some_2 msg i) as [x Hx]; [lia|].
  cbn [for_loop].
  rewrite int_add_ok by lia. simpl.
  rewrite (load_ok _ _ _ x) by (rewrite ?Nat2Z.id; (done || lia)). simpl.
  destruct (decide ((sh + i)%nat = length msgZ)) as [He|Hne].
  - rewrite store_oob by lia. simpl. do 2 f_equal. lia.
  - rewrite store_ok by lia. simpl.
    replace (Z.of_nat i + 1) with (Z.of_nat (S i)) by lia.
    rewrite IH; rewrite ?length_insert; (done || lia).
Qed.

(** The padded message does not fit [msgZ] as soon as
    [shortened + k] exceeds its 24 cells: the first write past the end is
    at index 24. *)
Lemma pad_message_overflow (msg : list Z) (k shortened : Z) :
  0 <= shortened -> 0 <= k <= Z.of_nat (length msg) ->
  RS_MAX_PARITY_SYMBOLS + RS_MAX_MESSAGE_LENGTH < shortened + k ->
  pad_message msg k shortened = Undefined (OutOfBounds BufMsgZ 24).
Proof.
  unfold RS_MAX_PARITY_SYMBOLS, RS_MAX_MESSAGE_LENGTH.
  intros Hs Hk Hb. unfold pad_message, for_range.
  rewrite !Z.sub_0_r.
  change (Z.to_nat (RS_MAX_PARITY_SYMBOLS + RS_MAX_MESSAGE_LENGTH))
    with 24%nat.
  destruct (Z_lt_le_dec 24 shortened) as [Hgt|Hle].
  - pose proof (zero_loop_oob (Z.to_nat shortened) 0 24 ltac:(lia)) as Hz.
    change (Z.of_nat 0) with 0 in Hz. by rewrite Hz.
  - pose proof (zero_loop (Z.to_nat shortened) 0 24 ltac:(lia)) as Hz.
    change (Z.of_nat 0) with 0 in Hz. rewrite Hz. simpl mbind.
    pose proof (copy_loop_oob msg (replicate 24 0) (Z.to_nat shortened)
                  (Z.to_nat k) 0) as Hc.
    rewrite length_replicate, Z2Nat.id in Hc by lia.
    apply Hc; lia.
Qed.

(** For the documented width m = 5 the padded message has
    [31 - t] symbols, so every call with fewer than seven parity symbols
    writes past the end of [msgZ]. *)
Lemma rs_encode_message_5_overflow (msg : list Z) (k t : Z)
    (parity : list Z) :
  0 <= k <= Z.of_nat (length msg) -> 0 <= t <= 6 -> k + t <= 2 ^ 5 - 1 ->
  rs_encode_message msg k t 5 parity = Undefined (OutOfBounds BufMsgZ 24).
Proof.
  intros Hk Ht Hn. change (2 ^ 5 - 1) with 31 in Hn.
  unfold rs_encode_message.
  rewrite int_add_ok by lia.
  change (shl1 5) with (Done (A:=Z) 32). simpl.
  change (32 - 1) with 31.
  rewrite int_sub_ok by lia. simpl.
  rewrite pad_message_overflow;
    unfold RS_MAX_PARITY_SYMBOLS, RS_MAX_MESSAGE_LENGTH; (done || lia).
Qed.

(** For m = 4 every index written in [msgZ] is below 15. *)
Lemma msgZ_in_bounds_for_m_4 (msg : list Z) (k t : Z) :
  0 <= k <= Z.of_nat (length msg) -> 0 <= t -> k + t <= 15 ->
  15 - (k + t) + k - 1 < 15 /\
  exists msgZ, pad_message msg k (15 - (k + t)) = Done msgZ.
Proof.
  intros Hk Ht Hn. split; [lia|].
  eexists. apply pad_message_ok;
    unfold RS_MAX_PARITY_SYMBOLS, RS_MAX_MESSAGE_LENGTH; lia.
Qed.

(** C5: for the documented width m = 5 with k = 10 <= 16, t = 4 <= 8 and
    k + t <= 2^5 - 1, the padding has shortened = 17 and the copy of the
    message writes [msgZ] at index 24, one past its 24 cells. *)
Theorem msgZ_overflow_for_m_5 :
  10 <= RS_MAX_MESSAGE_LENGTH /\ 4 <= RS_MAX_PARITY_SYMBOLS /\
  10 + 4 <= 2 ^ 5 - 1 /\
  pad_message (replicate 10 1) 10 17 = Undefined (OutOfBounds BufMsgZ 24) /\
  rs_encode_message (replicate 10 1) 10 4 5 (replicate 4 0)
  = Undefined (OutOfBounds BufMsgZ 24).
Proof. repeat split; by vm_compute. Qed.

(** ** Calls on one shared array *)

Lemma bind_Done_inv {A B : Type} (c : outcome A) (k : A -> outcome B) (r : B) :
  (x ← c; k x) = Done r -> exists x, c = Done x /\ k x = Done r.
Proof. destruct c as [x|u]; [by exists x|done]. Qed.

Lemma load_Done_inv (b : buffer) (a : list Z) (i v : Z) :
  load b a i = Done v -> 0 <= i /\ a !! Z.to_nat i = Some v.
Proof.
  unfold load. destruct (Z.leb_spec 0 i) as [Hi|Hi]; [|done].
  destruct (a !! Z.to_nat i) as [w|]; [|done].
  intros Heq. apply Done_inj in Heq. by subst.
Qed.

Lemma store_Done_inv (b : buffer) (a a' : list Z) (i v : Z) :
  store b a i v = Done a' ->
  0 <= i < Z.of_nat (length a) /\ a' = <[Z.to_nat i := v]> a.
Proof.
  unfold store. destruct (Z.leb_spec 0 i) as [Hi|Hi]; [|done].
  destruct (a !! Z.to_nat i) as [w|] eqn:Hw; [|done].
  intros Heq. apply Done_inj in Heq. apply lookup_lt_Some in Hw.
  split; [lia|done].
Qed.

(** A loop whose body is simulated by another body, through a map [f] of
    the states, is simulated by the other loop. *)
Lemma for_loop_sim {S1 S2 : Type} (f : S1 -> S2)
    (body1 : Z -> S1 -> outcome S1) (body2 : Z -> S2 -> outcome S2)
    (n : nat) (i : Z) (s r : S1) :
  (forall j s s', body1 j s = Done s' -> body2 j (f s) = Done (f s')) ->
  for_loop n i body1 s = Done r ->
  for_loop n i body2 (f s) = Done (f r).
Proof.
  intros Hb. revert i s. induction n as [|n IH]; intros i s H; simpl in *.
  - apply Done_inj in H. by subst.
  - apply bind_Done_inv in H as (s' & Hs & H).
    rewrite (Hb _ _ _ Hs). simpl. by apply IH.
Qed.

Lemma load_at_app (b : buffer) (pre a : list Z) (p i v : Z) :
  0 <= p -> length pre = Z.to_nat p ->
  load b a i = Done v -> load_at b (pre ++ a) p i = Done v.
Proof.
  intros Hp Hl H. apply load_Done_inv in H as [Hi Hv].
  unfold load_at. apply load_ok; [lia|].
  replace (Z.to_nat (p + i)) with (length pre + Z.to_nat i)%nat by lia.
  rewrite lookup_app_r by lia.
  by replace (length pre + Z.to_nat i - length pre)%nat
    with (Z.to_nat i) by lia.
Qed.

Lemma store_at_app (b : buffer) (pre a a' : list Z) (p i v : Z) :
  0 <= p -> length pre = Z.to_nat p ->
  store b a i v = Done a' -> store_at b (pre ++ a) p i v = Done (pre ++ a').
Proof.
  intros Hp Hl H. apply store_Done_inv in H as [Hi ->].
  unfold store_at. rewrite store_ok by (rewrite length_app; lia).
  replace (Z.to_nat (p + i)) with (length pre + Z.to_nat i)%nat by lia.
  by rewrite insert_app_r.
Qed.

Lemma shift_register_at_app (m : Z) (rhs pre a a' : list Z) (p : Z) :
  0 <= p -> length pre = Z.to_nat p ->
  shift_register m rhs a = Done a' ->
  shift_register_at m rhs p (pre ++ a) = Done (pre ++ a').
Proof.
  intros Hp Hl H. unfold shift_register in H. unfold shift_register_at.
  apply bind_Done_inv in H as (a1 & H1 & H).
  apply bind_Done_inv in H as (r & Hr & H).
  apply bind_Done_inv in H as (v & Hv & H).
  unfold for_range in *.
  match goal with
  | |- (for_loop ?n ?i ?b2 _ ≫= _) = _ =>
      assert (Hloop : for_loop n i b2 (pre ++ a) = Done (pre ++ a1))
  end.
  { eapply (for_loop_sim (app pre)); [|exact H1].
    intros j s s' Hj. simpl in Hj.
    apply bind_Done_inv in Hj as (x & Hx & Hj).
    apply bind_Done_inv in Hj as (y & Hy & Hj).
    apply bind_Done_inv in Hj as (z & Hz & Hj).
    simpl. rewrite (load_at_app _ _ _ _ _ _ Hp Hl Hx). simpl.
    rewrite Hy. simpl. rewrite Hz. simpl. by apply store_at_app. }
  rewrite Hloop. simpl. rewrite Hr. simpl. rewrite Hv. simpl.
  by apply store_at_app.
Qed.

Lemma lfsr_step_at_app (m s : Z) (pre a a' : list Z) (p : Z) :
  0 <= p -> length pre = Z.to_nat p ->
  lfsr_step m s a = Done a' ->
  lfsr_step_at m s p (pre ++ a) = Done (pre ++ a').
Proof.
  intros Hp Hl H. unfold lfsr_step in H. unfold lfsr_step_at.
  apply bind_Done_inv in H as (p0 & H0 & H).
  apply bind_Done_inv in H as (f & Hf & H).
  apply bind_Done_inv in H as (rhs & Hrhs & H).
  rewrite (load_at_app _ _ _ _ _ _ Hp Hl H0). simpl.
  rewrite Hf. simpl. rewrite Hrhs. simpl.
  by apply shift_register_at_app.
Qed.

Lemma load_at_drop (b : buffer) (mem : list Z) (p i v : Z) :
  0 <= p -> load b (drop (Z.to_nat p) mem) i = Done v ->
  load_at b mem p i = Done v.
Proof.
  intros Hp H. apply load_Done_inv in H as [Hi Hv].
  unfold load_at. apply load_ok; [lia|].
  rewrite lookup_drop in Hv.
  by replace (Z.to_nat (p + i)) with (Z.to_nat p + Z.to_nat i)%nat by lia.
Qed.

Lemma pad_message_at_drop (mem : list Z) (p k shortened : Z) (msgZ : list Z) :
  0 <= p ->
  pad_message (drop (Z.to_nat p) mem) k shortened = Done msgZ ->
  pad_message_at mem p k shortened = Done msgZ.
Proof.
  intros Hp H. unfold pad_message in H. unfold pad_message_at.
  apply bind_Done_inv in H as (z & Hz & H).
  rewrite Hz. simpl. unfold for_range in *.
  eapply (for_loop_sim id); [|exact H].
  intros j s s' Hj. unfold id. simpl in Hj.
  apply bind_Done_inv in Hj as (idx & Hidx & Hj).
  apply bind_Done_inv in Hj as (v & Hv & Hj).
  simpl. rewrite Hidx. simpl. rewrite (load_at_drop _ _ _ _ _ Hp Hv). done.
Qed.

(** A call on pointers into one array behaves as the call on two separate
    arrays holding what the pointers see: the message is copied into [msgZ]
    before the first parity cell is written. *)
Lemma rs_encode_message_at_separate (mem : list Z) (msg k t m parity : Z)
    (r : Z) (p' : list Z) :
  0 <= msg -> 0 <= parity <= Z.of_nat (length mem) ->
  rs_encode_message (drop (Z.to_nat msg) mem) k t m
    (drop (Z.to_nat parity) mem) = Done (r, p') ->
  rs_encode_message_at mem msg k t m parity
  = Done (r, take (Z.to_nat parity) mem ++ p').
Proof.
  intros Hm Hp H. unfold rs_encode_message in H. unfold rs_encode_message_at.
  apply bind_Done_inv in H as (n & Hn & H).
  apply bind_Done_inv in H as (bs & Hbs & H).
  apply bind_Done_inv in H as (sh & Hsh & H).
  apply bind_Done_inv in H as (msgZ & Hz & H).
  apply bind_Done_inv in H as (bound & Hb & H).
  apply bind_Done_inv in H as (q & Hq & H).
  apply Done_inj in H. injection H as <- <-.
  rewrite Hn. simpl. rewrite Hbs. simpl. rewrite Hsh. simpl.
  rewrite (pad_message_at_drop _ _ _ _ _ Hm Hz). simpl.
  rewrite Hb. simpl. unfold for_range in *.
  match goal with
  | |- (for_loop ?n ?i ?b2 _ ≫= _) = _ =>
      assert (Hloop : for_loop n i b2
                        (take (Z.to_nat parity) mem
                         ++ drop (Z.to_nat parity) mem)
                      = Done (take (Z.to_nat parity) mem ++ q))
  end.
  { eapply (for_loop_sim (app (take (Z.to_nat parity) mem))); [|exact Hq].
    intros j s s' Hj. simpl in Hj.
    apply bind_Done_inv in Hj as (x & Hx & Hj).
    simpl. rewrite Hx. simpl. apply lfsr_step_at_app; [lia| |done].
    rewrite length_take. lia. }
  rewrite take_drop in Hloop. by rewrite Hloop.
Qed.

(** ** Loop invariants and extensionality *)

Lemma for_loop_inv {S : Type} (P : S -> Prop)
    (body : Z -> S -> outcome S) (n : nat) (i : Z) (s r : S) :
  (forall j s s',
     i <= j < i + Z.of_nat n -> P s -> body j s = Done s' -> P s') ->
  P s -> for_loop n i body s = Done r -> P r.
Proof.
  revert i s. induction n as [|n IH]; intros i s Hb Hs H; simpl in H.
  - apply Done_inj in H. by subst.
  - apply bind_Done_inv in H as (s' & Hs' & H).
    apply (IH (i + 1) s'); [|by apply (Hb i s); [lia|..]|done].
    intros j t t' Hj. apply Hb. lia.
Qed.

Lemma for_loop_ext {S : Type} (body1 body2 : Z -> S -> outcome S)
    (n : nat) (i : Z) (s : S) :
  (forall j s, i <= j < i + Z.of_nat n -> body1 j s = body2 j s) ->
  for_loop n i body1 s = for_loop n i body2 s.
Proof.
  revert i s. induction n as [|n IH]; intros i s Hb; [done|].
  simpl. rewrite Hb by lia.
  destruct (body2 i s) as [s'|u]; [|done]. simpl.
  apply IH. intros j t Hj. apply Hb. lia.
Qed.

(** ** What a call may touch *)

Lemma store_footprint (b : buffer) (w : nat) (a0 a a' : list Z) (i v : Z) :
  i < Z.of_nat w ->
  length a = length a0 /\ drop w a = drop w a0 ->
  store b a i v = Done a' ->
  length a' = length a0 /\ drop w a' = drop w a0.
Proof.
  intros Hi [Hl Hd] H. apply store_Done_inv in H as [Hr ->].
  rewrite length_insert, drop_insert_lt by lia. done.
Qed.

Lemma shift_register_footprint (m : Z) (rhs a0 a a' : list Z) :
  length a = length a0 /\ drop (Z.to_nat m) a = drop (Z.to_nat m) a0 ->
  shift_register m rhs a = Done a' ->
  length a' = length a0 /\ drop (Z.to_nat m) a' = drop (Z.to_nat m) a0.
Proof.
  intros Ha H. unfold shift_register in H.
  apply bind_Done_inv in H as (a1 & H1 & H).
  apply bind_Done_inv in H as (r & Hr & H).
  apply bind_Done_inv in H as (v & Hv & H).
  assert (Hm : 0 <= m - 1) by (apply load_Done_inv in Hr; lia).
  eapply (store_footprint _ (Z.to_nat m)); [|
    |exact H]; [lia|].
  unfold for_range in H1.
  refine (for_loop_inv
            (fun s => length s = length a0
                      /\ drop (Z.to_nat m) s = drop (Z.to_nat m) a0)
            _ _ _ _ _ _ Ha H1).
  intros j s s' Hj Hs Hb.
  apply bind_Done_inv in Hb as (x & Hx & Hb).
  apply bind_Done_inv in Hb as (y & Hy & Hb).
  apply bind_Done_inv in Hb as (z & Hz & Hb).
  eapply (store_footprint _ (Z.to_nat m)); [|exact Hs|exact Hb]. lia.
Qed.

Lemma lfsr_step_footprint (m s : Z) (a0 a a' : list Z) :
  length a = length a0 /\ drop (Z.to_nat m) a = drop (Z.to_nat m) a0 ->
  lfsr_step m s a = Done a' ->
  length a' = length a0 /\ drop (Z.to_nat m) a' = drop (Z.to_nat m) a0.
Proof.
  intros Ha H. unfold lfsr_step in H.
  apply bind_Done_inv in H as (p0 & H0 & H).
  apply bind_Done_inv in H as (f & Hf & H).
  apply bind_Done_inv in H as (rhs & Hrhs & H).
  by apply (shift_register_footprint m rhs a0 a a').
Qed.

Lemma rs_encode_message_footprint (msg : list Z) (k t m : Z)
    (parity parity' : list Z) (r : Z) :
  rs_encode_message msg k t m parity = Done (r, parity') ->
  r = 0 /\ length parity' = length parity /\
  drop (Z.to_nat m) parity' = drop (Z.to_nat m) parity.
Proof.
  intros H. unfold rs_encode_message in H.
  apply bind_Done_inv in H as (n & Hn & H).
  apply bind_Done_inv in H as (bs & Hbs & H).
  apply bind_Done_inv in H as (sh & Hsh & H).
  apply bind_Done_inv in H as (msgZ & Hz & H).
  apply bind_Done_inv in H as (bound & Hb & H).
  apply bind_Done_inv in H as (q & Hq & H).
  apply Done_inj in H. injection H as <- <-.
  split; [done|]. unfold for_range in Hq.
  refine (for_loop_inv
            (fun s => length s = length parity
                      /\ drop (Z.to_nat m) s = drop (Z.to_nat m) parity)
            _ _ _ _ _ _ (conj eq_refl eq_refl) Hq).
  intros j s s' Hj Hs Hbody.
  apply bind_Done_inv in Hbody as (x & Hx & Hbody).
  by apply (lfsr_step_footprint m x parity s s').
Qed.

(** ** What a call reads of the message *)

Lemma load_take (b : buffer) (a : list Z) (n : nat) (i : Z) :
  i < Z.of_nat n -> load b (take n a) i = load b a i.
Proof.
  intros Hi. unfold load. destruct (Z.leb_spec 0 i); [|done].
  by rewrite lookup_take_lt by lia.
Qed.

Lemma pad_message_take (msg : list Z) (k shortened : Z) :
  pad_message (take (Z.to_nat k) msg) k shortened
  = pad_message msg k shortened.
Proof.
  unfold pad_message.
  destruct (for_range 0 shortened _ _) as [z|u]; [|done]. simpl.
  unfold for_range. apply for_loop_ext. intros j s Hj.
  destruct (int_add j shortened) as [idx|u]; [|done]. simpl.
  by rewrite load_take by lia.
Qed.

Lemma rs_encode_message_take (msg : list Z) (k t m : Z) (parity : list Z) :
  rs_encode_message (take (Z.to_nat k) msg) k t m parity
  = rs_encode_message msg k t m parity.
Proof.
  unfold rs_encode_message.
  destruct (int_add k t) as [n|u]; [|done]. simpl.
  destruct (shl1 m) as [bs|u]; [|done]. simpl.
  destruct (int_sub (bs - 1) n) as [sh|u]; [|done]. simpl.
  by rewrite pad_message_take.
Qed.

(** ** Inputs the function does not reject *)

Lemma shl1_pow (m : Z) : 0 <= m < 31 -> shl1 m = Done (2 ^ m).
Proof.
  intros Hm. unfold shl1.
  destruct (Z.leb_spec 0 m), (Z.ltb_spec m 31); try lia. simpl.
  by rewrite Z.shiftl_1_l.
Qed.

Lemma pow2_bounds (m : Z) : 0 <= m < 31 -> 1 <= 2 ^ m < 2 ^ 31.
Proof.
  intros Hm. split.
  - pose proof (Z.pow_pos_nonneg 2 m). lia.
  - apply Z.pow_lt_mono_r; lia.
Qed.

Lemma pad_message_negative (msg : list Z) (x : Z) (k shortened : Z) :
  1 <= k -> - 2 ^ 31 <= shortened < 0 ->
  pad_message (x :: msg) k shortened
  = Undefined (OutOfBounds BufMsgZ shortened).
Proof.
  intros Hk Hs. unfold pad_message, for_range.
  replace (Z.to_nat (shortened - 0)) with 0%nat by lia. simpl.
  destruct (Z.to_nat (k - 0)) as [|n] eqn:Hn; [lia|].
  cbn [for_loop]. rewrite int_add_ok by lia. rewrite Z.add_0_l.
  change (load BufMsg (x :: msg) 0) with (Done (A:=Z) x).
  unfold store. cbn [mbind outcome_bind].
  change (0 + shortened) with shortened.
  by destruct (Z.leb_spec 0 shortened); [lia|].
Qed.

Lemma fold_outcome_app {S : Type} (step : Z -> S -> outcome S)
    (l1 l2 : list Z) (s : S) :
  fold_outcome step (l1 ++ l2) s
  = (s' ← fold_outcome step l1 s; fold_outcome step l2 s').
Proof.
  revert s. induction l1 as [|x l1 IH]; intros s; [done|].
  simpl. destruct (step x s) as [s'|u]; [|done]. simpl. apply IH.
Qed.

Lemma table_get_row_oob (tab : list (list Z)) (l r : Z) :
  Z.of_nat (length tab) <= l -> 0 <= r ->
  table_get tab l r = Undefined (OutOfBounds BufTable l).
Proof.
  intros Hl Hr. unfold table_get.
  destruct (Z.leb_spec 0 l), (Z.leb_spec 0 r); try lia. simpl.
  by rewrite lookup_ge_None_2 by lia.
Qed.

Lemma lfsr_step_4_symbol_oob (x : Z) (r rest : list Z) :
  reg4 r -> 16 <= x ->
  lfsr_step 4 x (r ++ rest) = Undefined (OutOfBounds BufTable x).
Proof.
  intros Hr Hx.
  destruct (reg4_inv r Hr) as (a & b & c & d & -> & Ha & _).
  unfold lfsr_step. simpl load. simpl mbind.
  change (galois_field_add 4 x a) with (table_get GALOIS_ADDITIONS_4 x a).
  by rewrite table_get_row_oob by (simpl; lia).
Qed.

(** ** The domain of the field operations for m = 4 *)

Lemma table_get_Done_inv (tab : list (list Z)) (l r v : Z) :
  table_get tab l r = Done v ->
  exists row, 0 <= l /\ 0 <= r /\ tab !! Z.to_nat l = Some row
              /\ row !! Z.to_nat r = Some v.
Proof.
  unfold table_get.
  destruct (Z.leb_spec 0 l), (Z.leb_spec 0 r); try done. simpl.
  destruct (tab !! Z.to_nat l) as [row|] eqn:Hrow; [|done].
  destruct (row !! Z.to_nat r) as [w|] eqn:Hw; [|done].
  intros Heq. apply Done_inj in Heq. subst. by exists row.
Qed.

Lemma table_shape (tab : list (list Z)) (rows cols : nat) (l r v : Z) :
  length tab = rows -> Forall (fun row => length row = cols) tab ->
  table_get tab l r = Done v ->
  0 <= l < Z.of_nat rows /\ 0 <= r < Z.of_nat cols.
Proof.
  intros Hrows Hcols H.
  apply table_get_Done_inv in H as (row & Hl & Hr & Hrow & Hv).
  pose proof (lookup_lt_Some _ _ _ Hrow).
  pose proof (lookup_lt_Some _ _ _ Hv) as Hlt.
  rewrite Forall_lookup in Hcols. rewrite (Hcols _ _ Hrow) in Hlt. lia.
Qed.

Lemma GALOIS_ADDITIONS_4_shape :
  length GALOIS_ADDITIONS_4 = 16%nat /\
  Forall (fun row => length row = 16%nat) GALOIS_ADDITIONS_4.
Proof. split; [done|]. repeat constructor. Qed.

Lemma GALOIS_PRODUCTS_4_shape :
  length GALOIS_PRODUCTS_4 = 16%nat /\
  Forall (fun row => length row = 4%nat) GALOIS_PRODUCTS_4.
Proof. split; [done|]. repeat constructor. Qed.

Lemma prod4_injective (a b j : Z) :
  0 <= a < 16 -> 0 <= b < 16 -> 0 <= j < 4 ->
  prod4 a j = prod4 b j -> a = b.
Proof.
  intros Ha Hb Hj H.
  pose (P := fun a : Z => forallb (fun b => forallb (fun j =>
    negb (prod4 a j =? prod4 b j) || (a =? b)) (seqZ 0 4)) (seqZ 0 16)).
  assert (HP : forall a, 0 <= a < 16 -> P a = true).
  { apply forallb_seqZ. by vm_compute. }
  pose proof (forallb2_seqZ (fun b j =>
    negb (prod4 a j =? prod4 b j) || (a =? b)) 16 4 (HP a Ha) b j Hb Hj)
    as Hab.
  simpl in Hab. rewrite H, Z.eqb_refl in Hab. simpl in Hab. lia.
Qed.

(** ** Widths without tables *)

Lemma fold_outcome_const {S : Type} (step : Z -> S -> outcome S)
    (P : S -> Prop) (c : S) (syms : list Z) (s : S) :
  (forall x s, P s -> step x s = Done c) -> P c -> P s ->
  syms <> [] -> fold_outcome step syms s = Done c.
Proof.
  intros Hstep Hc. revert s.
  induction syms as [|x syms IH]; intros s Hs Hne; [done|].
  simpl. rewrite (Hstep x s Hs). simpl.
  destruct syms as [|y syms]; [done|]. by apply IH.
Qed.

Lemma lfsr_step_no_table (m s : Z) (p rest : list Z) :
  1 <= m <= 8 -> m <> 4 -> m <> 5 -> Z.of_nat (length p) = m ->
  lfsr_step m s (p ++ rest) = Done (replicate (Z.to_nat m) 255 ++ rest).
Proof.
  intros Hm H4 H5 Hl.
  assert (Hc : m = 1 \/ m = 2 \/ m = 3 \/ m = 6 \/ m = 7 \/ m = 8) by lia.
  destruct Hc as [-> | [-> | [-> | [-> | [-> | ->]]]]];
    repeat (match type of Hl with
            | context [length ?q] => is_var q; destruct q
            end; simpl in Hl; try lia);
    done.
Qed.

(** ** The printing loop of [main.c] *)

Lemma string_app_assoc (a b c : string) : (a +:+ b) +:+ c = a +:+ b +:+ c.
Proof.
  induction a as [|x a IH]; [done|].
  change (String x ((a +:+ b) +:+ c) = String x (a +:+ b +:+ c)).
  by rewrite IH.
Qed.

Lemma print_loop_line (l pre post : list Z) (out : string) :
  l <> [] ->
  for_loop (length l) (Z.of_nat (length pre))
    (fun i out =>
       elem ← load BufMsg (pre ++ l ++ post) i;
       if i <? Z.of_nat (length pre + length l) - 1
       then Done (out +:+ fmt_x elem +:+ " ")
       else Done (out +:+ fmt_x elem +:+ nl))
    out
  = Done (out +:+ String.concat " " (fmt_x <$> l) +:+ nl).
Proof.
  revert pre out. induction l as [|x l IH]; intros pre out Hne; [done|].
  cbn [length for_loop].
  rewrite (load_ok _ _ _ x);
    [|lia|by rewrite Nat2Z.id; apply list_lookup_middle].
  simpl mbind.
  destruct l as [|y l].
  - match goal with
    | |- context [?a <? ?b] => destruct (Z.ltb_spec a b)
    end; [simpl in *; lia|done].
  - match goal with
    | |- context [?a <? ?b] => destruct (Z.ltb_spec a b)
    end; [|simpl in *; lia].
    cbn [mbind outcome_bind].
    specialize (IH (pre ++ [x]) (out +:+ fmt_x x +:+ " ") ltac:(done)).
    rewrite length_app, <- app_assoc in IH. simpl length in IH.
    replace (length pre + 1 + S (length l))%nat
      with (length pre + S (S (length l)))%nat in IH by lia.
    replace (Z.of_nat (length pre) + 1)
      with (Z.of_nat (length pre + 1)) by lia.
    etrans; [exact IH|]. f_equal.
    change (fmt_x <$> x :: y :: l) with (fmt_x x :: (fmt_x <$> y :: l)).
    change (String.concat " " (fmt_x x :: (fmt_x <$> y :: l)))
      with (fmt_x x +:+ " " +:+ String.concat " " (fmt_x <$> y :: l)).
    by rewrite !string_app_assoc.
Qed.

Lemma print_codeword_line (mem : list Z) (n : Z) (out : string) :
  1 <= n <= Z.of_nat (length mem) ->
  print_codeword mem n out
  = Done (out +:+ String.concat " " (fmt_x <$> take (Z.to_nat n) mem)
          +:+ nl).
Proof.
  intros Hn. unfold print_codeword, for_range. rewrite Z.sub_0_r.
  pose proof (print_loop_line (take (Z.to_nat n) mem) []
                (drop (Z.to_nat n) mem) out) as H.
  rewrite length_take in H. simpl in H. rewrite take_drop in H.
  replace (Z.to_nat n `min` length mem)%nat with (Z.to_nat n) in H by lia.
  rewrite Z2Nat.id in H by lia.
  apply H. destruct mem; [simpl in Hn; lia|].
  destruct (Z.to_nat n) eqn:Heq; [lia|done].
Qed.

(** ** The encoding loop as a fold, for any width *)

Lemma rs_encode_message_fold (msg : list Z) (k t m : Z) (parity : list Z) :
  0 <= m < 31 -> 0 <= k <= Z.of_nat (length msg) -> 0 <= t ->
  k + t <= 2 ^ m - 1 ->
  2 ^ m - 1 - t <= RS_MAX_PARITY_SYMBOLS + RS_MAX_MESSAGE_LENGTH ->
  rs_encode_message msg k t m parity
  = (parity' ← fold_outcome (lfsr_step m)
                 (padded msg k (2 ^ m - 1 - (k + t))) parity;
     Done (0, parity')).
Proof.
  intros Hm Hk Ht Hn Hb. pose proof (pow2_bounds m Hm) as Hp.
  unfold RS_MAX_PARITY_SYMBOLS, RS_MAX_MESSAGE_LENGTH in Hb.
  unfold rs_encode_message.
  rewrite int_add_ok by lia. simpl.
  rewrite shl1_pow by done. simpl.
  rewrite int_sub_ok by lia. simpl.
  rewrite pad_message_ok
    by (unfold RS_MAX_PARITY_SYMBOLS, RS_MAX_MESSAGE_LENGTH; lia).
  simpl. rewrite int_add_ok by lia. simpl.
  replace (2 ^ m - 1 - (k + t) + k)
    with (Z.of_nat (length (padded msg k (2 ^ m - 1 - (k + t)))))
    by (rewrite padded_length; lia).
  by rewrite (load_range BufMsgZ (lfsr_step m)).
Qed.

Lemma padded_nonempty (msg : list Z) (k shortened : Z) :
  0 <= shortened -> 0 <= k <= Z.of_nat (length msg) -> 1 <= shortened + k ->
  padded msg k shortened <> [].
Proof.
  intros Hs Hk Hp Hnil. pose proof (padded_length msg k shortened Hs Hk) as Hl.
  rewrite Hnil in Hl. simpl in Hl. lia.
Qed.

Lemma lfsr_fold_5 (syms p rest : list Z) :
  syms <> [] -> length p = 5%nat ->
  fold_outcome (lfsr_step 5) syms (p ++ rest)
  = Done ([0; 0; 0; 0; 0] ++ rest).
Proof.
  intros Hne Hl.
  apply (fold_outcome_const _
           (fun s => exists q, s = q ++ rest /\ length q = 5%nat));
    [|by exists [0; 0; 0; 0; 0]|by exists p|done].
  intros x s (q & -> & Hq).
  destruct q as [|a [|b [|c [|d [|e [|f q]]]]]]; try done.
Qed.

Lemma lfsr_fold_no_table (m : Z) (syms p rest : list Z) :
  1 <= m <= 8 -> m <> 4 -> m <> 5 ->
  syms <> [] -> Z.of_nat (length p) = m ->
  fold_outcome (lfsr_step m) syms (p ++ rest)
  = Done (replicate (Z.to_nat m) 255 ++ rest).
Proof.
  intros Hm H4 H5 Hne Hl.
  apply (fold_outcome_const _
           (fun s => exists q, s = q ++ rest /\ Z.of_nat (length q) = m));
    [|eexists; split; [done|rewrite length_replicate; lia]
     |by exists p|done].
  intros x s (q & -> & Hq). by apply lfsr_step_no_table.
Qed.

(** ** More on the register for m = 4 *)

Lemma vxor_zero_eq (u v : list Z) :
  reg4 u -> reg4 v -> vxor u v = [0; 0; 0; 0] -> v = u.
Proof.
  intros Hu Hv H.
  rewrite <- (vxor_cancel u v Hu Hv), H.
  destruct (reg4_inv u Hu) as (a & b & c & d & -> & _).
  unfold vxor. simpl. by rewrite !Z.lxor_0_r.
Qed.

Lemma lfsr4_kernel (r : list Z) (s : Z) :
  reg4 r -> field_elem 4 s -> lfsr4 r s = [0; 0; 0; 0] -> r = [s; 0; 0; 0].
Proof.
  intros Hr Hs. apply field_elem_4 in Hs.
  destruct (reg4_inv r Hr) as (a & b & c & d & -> & Ha & Hb & Hc & Hd).
  pose proof (lxor_below16 s a Hs Ha) as Hf.
  simpl. rewrite Z.lxor_0_l. intros H.
  injection H as H0 H1 H2 H3.
  apply prod4_3_zero in H3; [|done].
  rewrite H3, prod4_zero, Z.lxor_0_r in H0, H1, H2 by lia. subst.
  f_equal. symmetry.
  rewrite <- (Z.lxor_0_r s), <- H3, <- Z.lxor_assoc, Z.lxor_nilpotent.
  apply Z.lxor_0_l.
Qed.

Lemma lfsr4_inj_register (r1 r2 : list Z) (s : Z) :
  reg4 r1 -> reg4 r2 -> field_elem 4 s ->
  lfsr4 r1 s = lfsr4 r2 s -> r1 = r2.
Proof.
  intros H1 H2 Hs H.
  assert (Hz : lfsr4 (vxor r1 r2) (Z.lxor s s) = [0; 0; 0; 0]).
  { rewrite lfsr4_additive, H by done.
    apply vxor_nilpotent. by apply lfsr4_reg4. }
  rewrite Z.lxor_nilpotent in Hz.
  apply lfsr4_zero_inv in Hz; [|by apply reg4_vxor].
  symmetry. by apply vxor_zero_eq.
Qed.

Lemma lfsr4_inj_symbol (r : list Z) (s1 s2 : Z) :
  reg4 r -> field_elem 4 s1 -> field_elem 4 s2 ->
  lfsr4 r s1 = lfsr4 r s2 -> s1 = s2.
Proof.
  intros Hr H1 H2 H.
  assert (He : field_elem 4 (Z.lxor s1 s2)).
  { apply field_elem_4, lxor_below16; by apply field_elem_4. }
  assert (Hz : lfsr4 (vxor r r) (Z.lxor s1 s2) = [0; 0; 0; 0]).
  { rewrite lfsr4_additive, H by done.
    apply vxor_nilpotent. by apply lfsr4_reg4. }
  rewrite vxor_nilpotent in Hz by done.
  apply lfsr4_kernel in Hz; [|apply reg4_zero|done].
  injection Hz as Hz.
  rewrite <- (Z.lxor_0_r s1), Hz, <- Z.lxor_assoc, Z.lxor_nilpotent.
  apply Z.lxor_0_l.
Qed.

Lemma fold_lfsr4_inj_register (syms r1 r2 : list Z) :
  Forall (field_elem 4) syms -> reg4 r1 -> reg4 r2 ->
  fold_left lfsr4 syms r1 = fold_left lfsr4 syms r2 -> r1 = r2.
Proof.
  revert r1 r2. induction syms as [|x syms IH]; intros r1 r2 Hs H1 H2 H;
    [done|].
  apply Forall_cons in Hs as [Hx Hs]. simpl in H.
  apply IH in H; [|done|by apply lfsr4_reg4..].
  by apply (lfsr4_inj_register r1 r2 x).
Qed.

(** * Further properties of the encoder *)

(** ** Encoding into a cleared buffer (m = 4, t = 4) *)

(** X1: for m = 4, t = 4, a message of k <= 11 symbols below 16 and a
    parity buffer whose first four cells are zero, the call returns 0,
    writes four field elements and leaves the rest of the buffer alone; the
    message followed by the four symbols is a multiple of the generator. *)
Theorem encode_cleared_buffer_codeword (msg : list Z) (k : Z)
    (rest : list Z) :
  0 <= k <= 11 -> k <= Z.of_nat (length msg) ->
  Forall (field_elem 4) (take (Z.to_nat k) msg) ->
  exists p,
    rs_encode_message msg k 4 4 ([0; 0; 0; 0] ++ rest) = Done (0, p ++ rest) /\
    reg4 p /\
    spec_poly_rem gf16_mul GENERATOR_4 (take (Z.to_nat k) msg ++ p)
    = [0; 0; 0; 0].
Proof. apply encode_cleared_divisible. Qed.

Lemma encode_cleared_buffer_codeword_witness :
  exists p,
    rs_encode_message [2; 5; 6; 6; 0; 11; 15; 12; 1; 11] 10 4 4
      ([0; 0; 0; 0] ++ [77]) = Done (0, p ++ [77]) /\
    reg4 p /\
    spec_poly_rem gf16_mul GENERATOR_4
      (take (Z.to_nat 10) [2; 5; 6; 6; 0; 11; 15; 12; 1; 11] ++ p)
    = [0; 0; 0; 0].
Proof.
  apply (encode_cleared_buffer_codeword
           [2; 5; 6; 6; 0; 11; 15; 12; 1; 11] 10 [77]).
  - lia.
  - simpl. lia.
  - simpl. field_elems.
Defined.

(** X2: under the same conditions the parity the call writes is the only
    sequence of four field elements that completes the message to a
    multiple of the generator. *)
Theorem encode_cleared_buffer_parity_unique (msg : list Z) (k : Z)
    (rest : list Z) :
  0 <= k <= 11 -> k <= Z.of_nat (length msg) ->
  Forall (field_elem 4) (take (Z.to_nat k) msg) ->
  exists p,
    rs_encode_message msg k 4 4 ([0; 0; 0; 0] ++ rest) = Done (0, p ++ rest) /\
    forall p', reg4 p' ->
      (spec_poly_rem gf16_mul GENERATOR_4 (take (Z.to_nat k) msg ++ p')
       = [0; 0; 0; 0] <-> p' = p).
Proof.
  intros Hk Hl Hmsg.
  set (sym := take (Z.to_nat k) msg) in *.
  exists (fold_left lfsr4 sym [0; 0; 0; 0]).
  split; [by apply encode_cleared|].
  intros p' Hp'.
  assert (Hq : reg4 (fold_left lfsr4 sym [0; 0; 0; 0])).
  { apply fold_lfsr4_reg4; [apply reg4_zero|done]. }
  assert (Hw : reg4 (fold_left rem_step4 sym [0; 0; 0; 0])).
  { apply fold_rem_step4_reg4; [done|apply reg4_zero]. }
  rewrite spec_poly_rem_4, fold_left_app, rem_fold_parity by done.
  rewrite <- (lfsr_fold_pow4 sym [0; 0; 0; 0] Hmsg reg4_zero).
  change (mulx4_pow4 [0; 0; 0; 0]) with [0; 0; 0; 0].
  split.
  - by apply vxor_zero_eq.
  - intros ->. by apply vxor_nilpotent.
Qed.

Lemma encode_cleared_buffer_parity_unique_witness :
  exists p,
    rs_encode_message [1; 2; 3] 3 4 4 ([0; 0; 0; 0] ++ []) = Done (0, p ++ []) /\
    forall p', reg4 p' ->
      (spec_poly_rem gf16_mul GENERATOR_4 (take (Z.to_nat 3) [1; 2; 3] ++ p')
       = [0; 0; 0; 0] <-> p' = p).
Proof.
  apply (encode_cleared_buffer_parity_unique [1; 2; 3] 3 []).
  - lia.
  - simpl. lia.
  - simpl. field_elems.
Defined.

(** X3: for m = 4, t = 4 and a cleared buffer, the parity of the symbolwise
    exclusive or of two messages is the exclusive or of their parities. *)
Theorem encode_cleared_buffer_additive (m1 m2 : list Z) (k : Z)
    (rest : list Z) :
  0 <= k <= 11 ->
  k <= Z.of_nat (length m1) -> k <= Z.of_nat (length m2) ->
  Forall (field_elem 4) (take (Z.to_nat k) m1) ->
  Forall (field_elem 4) (take (Z.to_nat k) m2) ->
  exists p1 p2,
    rs_encode_message m1 k 4 4 ([0; 0; 0; 0] ++ rest) = Done (0, p1 ++ rest) /\
    rs_encode_message m2 k 4 4 ([0; 0; 0; 0] ++ rest) = Done (0, p2 ++ rest) /\
    rs_encode_message (zip_with Z.lxor m1 m2) k 4 4 ([0; 0; 0; 0] ++ rest)
    = Done (0, vxor p1 p2 ++ rest).
Proof. apply encode_cleared_additive. Qed.

Lemma encode_cleared_buffer_additive_witness :
  exists p1 p2,
    rs_encode_message [1; 2; 3] 3 4 4 ([0; 0; 0; 0] ++ []) = Done (0, p1 ++ []) /\
    rs_encode_message [4; 5; 6] 3 4 4 ([0; 0; 0; 0] ++ []) = Done (0, p2 ++ []) /\
    rs_encode_message (zip_with Z.lxor [1; 2; 3] [4; 5; 6]) 3 4 4
      ([0; 0; 0; 0] ++ [])
    = Done (0, vxor p1 p2 ++ []).
Proof.
  apply (encode_cleared_buffer_additive [1; 2; 3] [4; 5; 6] 3 []).
  - lia.
  - simpl. lia.
  - simpl. lia.
  - simpl. field_elems.
  - simpl. field_elems.
Defined.

(** X4: for m = 4, t = 4 and a cleared buffer, changing exactly one symbol
    of a message changes the parity. *)
Theorem encode_cleared_buffer_detects_one_symbol (pre suf : list Z)
    (x y : Z) (rest : list Z) :
  Z.of_nat (length (pre ++ x :: suf)) <= 11 ->
  Forall (field_elem 4) (pre ++ x :: suf) -> field_elem 4 y -> x <> y ->
  rs_encode_message (pre ++ x :: suf) (Z.of_nat (length (pre ++ x :: suf)))
    4 4 ([0; 0; 0; 0] ++ rest)
  <> rs_encode_message (pre ++ y :: suf)
       (Z.of_nat (length (pre ++ x :: suf))) 4 4 ([0; 0; 0; 0] ++ rest).
Proof.
  intros Hk Hm Hy Hxy.
  assert (Hlen : length (pre ++ y :: suf) = length (pre ++ x :: suf))
    by (rewrite !length_app; done).
  apply Forall_app in Hm as [Hpre Hm]. apply Forall_cons in Hm as [Hx Hsuf].
  assert (Hm1 : Forall (field_elem 4) (pre ++ x :: suf))
    by (apply Forall_app; split; [done|by apply Forall_cons_2]).
  assert (Hm2 : Forall (field_elem 4) (pre ++ y :: suf))
    by (apply Forall_app; split; [done|by apply Forall_cons_2]).
  rewrite !encode_cleared;
    rewrite ?Nat2Z.id, ?firstn_all, <- ?Hlen, ?firstn_all, ?Hlen;
    try (done || lia).
  intros H. apply Done_inj, pair_equal_spec in H as [_ H].
  apply app_inv_tail in H.
  rewrite !fold_left_app in H. simpl in H.
  assert (Hr : reg4 (fold_left lfsr4 pre [0; 0; 0; 0])).
  { apply fold_lfsr4_reg4; [apply reg4_zero|done]. }
  apply fold_lfsr4_inj_register in H;
    [|done|by apply lfsr4_reg4..].
  by apply lfsr4_inj_symbol in H.
Qed.

Lemma encode_cleared_buffer_detects_one_symbol_witness :
  3 <> 9 /\
  rs_encode_message ([1; 2] ++ 3 :: [4])
    (Z.of_nat (length ([1; 2] ++ 3 :: [4]))) 4 4 ([0; 0; 0; 0] ++ [])
  <> rs_encode_message ([1; 2] ++ 9 :: [4])
       (Z.of_nat (length ([1; 2] ++ 3 :: [4]))) 4 4 ([0; 0; 0; 0] ++ []).
Proof.
  split; [lia|].
  apply (encode_cleared_buffer_detects_one_symbol [1; 2] [4] 3 9 []).
  - simpl. lia.
  - simpl. field_elems.
  - unfold field_elem. simpl. lia.
  - lia.
Defined.

(** ** Encoding into a buffer that was not cleared (m = 4, t = 4) *)

(** X5: for m = 4, t = 4 the parity written over a buffer whose first four
    cells hold field elements r is the parity written over a cleared buffer
    plus the parity the all-zero message of eleven symbols gives on r; the
    codeword then leaves exactly that second term as remainder, which is
    zero only if r was all zero. *)
Theorem encode_used_buffer_offset (msg : list Z) (k : Z) (r rest : list Z) :
  0 <= k <= 11 -> k <= Z.of_nat (length msg) ->
  Forall (field_elem 4) (take (Z.to_nat k) msg) -> reg4 r ->
  exists p0 c,
    rs_encode_message msg k 4 4 ([0; 0; 0; 0] ++ rest)
    = Done (0, p0 ++ rest) /\
    rs_encode_message (replicate 11 0) 11 4 4 (r ++ rest)
    = Done (0, c ++ rest) /\
    rs_encode_message msg k 4 4 (r ++ rest)
    = Done (0, vxor p0 c ++ rest) /\
    spec_poly_rem gf16_mul GENERATOR_4 (take (Z.to_nat k) msg ++ vxor p0 c)
    = c /\
    (c = [0; 0; 0; 0] <-> r = [0; 0; 0; 0]).
Proof.
  intros Hk Hl Hmsg Hr.
  exists (fold_left lfsr4 (take (Z.to_nat k) msg) [0; 0; 0; 0]),
         (fold_left lfsr4 (replicate 11 0) r).
  split; [by apply encode_cleared|].
  split.
  { rewrite encode_used_buffer;
      [|lia|rewrite length_replicate; lia
       |apply Forall_take, Forall_replicate, field_elem_4; lia|done].
    change (take (Z.to_nat 11) (replicate 11 0)) with (replicate 11 0).
    rewrite lfsr4_zero_run, vxor_zero_l; [done|].
    apply fold_lfsr4_reg4; [done|].
    apply Forall_replicate, field_elem_4. lia. }
  split; [by apply encode_used_buffer|].
  destruct (encode_used_buffer_remainder msg k r rest Hk Hl Hmsg Hr)
    as (p & Hp & _ & Hrem & _).
  rewrite encode_used_buffer in Hp by done.
  apply Done_inj, pair_equal_spec in Hp as [_ Hp].
  apply app_inv_tail in Hp. rewrite Hp. split; [done|].
  split.
  - by apply lfsr4_zero_run_inv.
  - intros ->. apply lfsr4_zero_run.
Qed.

Lemma encode_used_buffer_offset_witness :
  exists p0 c,
    rs_encode_message [1; 2; 3] 3 4 4 ([0; 0; 0; 0] ++ [])
    = Done (0, p0 ++ []) /\
    rs_encode_message (replicate 11 0) 11 4 4 ([1; 0; 0; 0] ++ [])
    = Done (0, c ++ []) /\
    rs_encode_message [1; 2; 3] 3 4 4 ([1; 0; 0; 0] ++ [])
    = Done (0, vxor p0 c ++ []) /\
    spec_poly_rem gf16_mul GENERATOR_4
      (take (Z.to_nat 3) [1; 2; 3] ++ vxor p0 c)
    = c /\
    (c = [0; 0; 0; 0] <-> [1; 0; 0; 0] = [0; 0; 0; 0]).
Proof.
  apply (encode_used_buffer_offset [1; 2; 3] 3 [1; 0; 0; 0] []).
  - lia.
  - simpl. lia.
  - simpl. field_elems.
  - closed_reg4.
Defined.

(** ** The call for m = 4 and any parity count *)

(** X6: for m = 4, any t >= 0 with k + t <= 15, message symbols below 16
    and a buffer whose first four cells hold field elements, the call has
    no undefined behaviour: it returns 0, writes four field elements and
    leaves the rest of the buffer alone. *)
Theorem encode_width_4_defined (msg : list Z) (k t : Z) (r rest : list Z) :
  0 <= k <= Z.of_nat (length msg) -> 0 <= t -> k + t <= 15 ->
  Forall (field_elem 4) (take (Z.to_nat k) msg) -> reg4 r ->
  exists p,
    rs_encode_message msg k t 4 (r ++ rest) = Done (0, p ++ rest) /\ reg4 p.
Proof.
  intros Hk Ht Hn Hmsg Hr.
  exists (fold_left lfsr4 (padded msg k (15 - (k + t))) r).
  split; [by apply rs_encode_message_4|].
  apply fold_lfsr4_reg4; [done|]. by apply padded_field_elem.
Qed.

Lemma encode_width_4_defined_witness :
  exists p,
    rs_encode_message [1; 2; 3; 4; 5; 6; 7; 8; 9] 9 2 4
      ([3; 1; 4; 1] ++ [5; 9])
    = Done (0, p ++ [5; 9]) /\ reg4 p.
Proof.
  apply (encode_width_4_defined [1; 2; 3; 4; 5; 6; 7; 8; 9] 9 2
           [3; 1; 4; 1] [5; 9]).
  - simpl. lia.
  - lia.
  - lia.
  - simpl. field_elems.
  - closed_reg4.
Defined.

(** X7: for m = 4 and a cleared buffer the parity count t has no effect on
    the result: any two admissible values of t give the same four parity
    symbols. *)
Theorem encode_width_4_ignores_t (msg : list Z) (k t1 t2 : Z)
    (rest : list Z) :
  0 <= k <= Z.of_nat (length msg) ->
  0 <= t1 -> k + t1 <= 15 -> 0 <= t2 -> k + t2 <= 15 ->
  Forall (field_elem 4) (take (Z.to_nat k) msg) ->
  rs_encode_message msg k t1 4 ([0; 0; 0; 0] ++ rest)
  = rs_encode_message msg k t2 4 ([0; 0; 0; 0] ++ rest).
Proof.
  intros Hk H1 Hn1 H2 Hn2 Hmsg.
  rewrite !rs_encode_message_4 by (done || apply reg4_zero).
  unfold padded. by rewrite !fold_left_app, !lfsr4_zero_run.
Qed.

Lemma encode_width_4_ignores_t_witness :
  rs_encode_message [1; 2; 3] 3 2 4 ([0; 0; 0; 0] ++ [7])
  = rs_encode_message [1; 2; 3] 3 6 4 ([0; 0; 0; 0] ++ [7]).
Proof.
  apply (encode_width_4_ignores_t [1; 2; 3] 3 2 6 [7]).
  - simpl. lia.
  - lia.
  - lia.
  - lia.
  - lia.
  - simpl. field_elems.
Defined.

(** X8: for m = 4 a zero symbol put in front of the message, with k raised
    by one, does not change the result, whatever field elements the buffer
    holds: the shortening pads with such zeros. *)
Theorem encode_width_4_leading_zero (msg : list Z) (k t : Z)
    (r rest : list Z) :
  0 <= k <= Z.of_nat (length msg) -> 0 <= t -> k + 1 + t <= 15 ->
  Forall (field_elem 4) (take (Z.to_nat k) msg) -> reg4 r ->
  rs_encode_message (0 :: msg) (k + 1) t 4 (r ++ rest)
  = rs_encode_message msg k t 4 (r ++ rest).
Proof.
  intros Hk Ht Hn Hmsg Hr.
  assert (Ht' : take (Z.to_nat (k + 1)) (0 :: msg)
                = 0 :: take (Z.to_nat k) msg).
  { replace (Z.to_nat (k + 1)) with (S (Z.to_nat k)) by lia. done. }
  rewrite !rs_encode_message_4; try (done || lia).
  - do 3 f_equal. unfold padded. rewrite Ht'.
    replace (Z.to_nat (15 - (k + t)))
      with (Z.to_nat (15 - (k + 1 + t)) + 1)%nat by lia.
    rewrite replicate_add, <- app_assoc. done.
  - simpl length. lia.
  - rewrite Ht'. apply Forall_cons_2; [apply field_elem_4; lia|done].
Qed.

Lemma encode_width_4_leading_zero_witness :
  rs_encode_message (0 :: [1; 2; 3]) (3 + 1) 4 4 ([6; 0; 9; 1] ++ [])
  = rs_encode_message [1; 2; 3] 3 4 4 ([6; 0; 9; 1] ++ []).
Proof.
  apply (encode_width_4_leading_zero [1; 2; 3] 3 4 [6; 0; 9; 1] []).
  - simpl. lia.
  - lia.
  - lia.
  - simpl. field_elems.
  - closed_reg4.
Defined.

(** X9: for m = 4 a message symbol of 16 or more among the first k is not
    rejected: the first such symbol x is used as a row index of the 16-row
    addition table, which is undefined behaviour. *)
Theorem encode_width_4_symbol_out_of_range (msg : list Z) (k t : Z)
    (i : nat) (x : Z) (r rest : list Z) :
  0 <= k <= Z.of_nat (length msg) -> 0 <= t -> k + t <= 15 ->
  (i < Z.to_nat k)%nat -> msg !! i = Some x -> 16 <= x ->
  Forall (field_elem 4) (take i msg) -> reg4 r ->
  rs_encode_message msg k t 4 (r ++ rest)
  = Undefined (OutOfBounds BufTable x).
Proof.
  intros Hk Ht Hn Hi Hx Hx16 Hpre Hr.
  rewrite rs_encode_message_fold;
    unfold RS_MAX_PARITY_SYMBOLS, RS_MAX_MESSAGE_LENGTH;
    change (2 ^ 4 - 1) with 15; try lia.
  assert (Hsplit : padded msg k (15 - (k + t))
                   = (replicate (Z.to_nat (15 - (k + t))) 0 ++ take i msg)
                     ++ x :: drop (S i) (take (Z.to_nat k) msg)).
  { unfold padded. rewrite <- app_assoc. f_equal.
    assert (Hx' : take (Z.to_nat k) msg !! i = Some x)
      by by rewrite lookup_take_lt.
    rewrite <- (take_drop_middle _ _ _ Hx') at 1.
    by rewrite take_take, Nat.min_l by lia. }
  rewrite Hsplit, fold_outcome_app, lfsr_fold_4; [|done|].
  - simpl. rewrite lfsr_step_4_symbol_oob; [done| |done].
    apply fold_lfsr4_reg4; [done|].
    apply Forall_app. split; [|done].
    apply Forall_replicate, field_elem_4. lia.
  - apply Forall_app. split; [|done].
    apply Forall_replicate, field_elem_4. lia.
Qed.

Lemma encode_width_4_symbol_out_of_range_witness :
  rs_encode_message [1; 2; 16; 3] 4 4 4 ([0; 0; 0; 0] ++ [])
  = Undefined (OutOfBounds BufTable 16).
Proof.
  apply (encode_width_4_symbol_out_of_range [1; 2; 16; 3] 4 4 2 16
           [0; 0; 0; 0] []).
  - simpl. lia.
  - lia.
  - lia.
  - simpl. lia.
  - reflexivity.
  - lia.
  - simpl. field_elems.
  - closed_reg4.
Defined.

(** ** Every width *)

(** X10: whenever a call completes, whatever the arguments, it has
    returned 0, the parity buffer has kept its length and every cell from
    index m on has kept its value: only the first m cells are written. *)
Theorem encode_returns_0_writes_first_m (msg : list Z) (k t m : Z)
    (parity parity' : list Z) (r : Z) :
  rs_encode_message msg k t m parity = Done (r, parity') ->
  r = 0 /\ length parity' = length parity /\
  drop (Z.to_nat m) parity' = drop (Z.to_nat m) parity.
Proof. apply rs_encode_message_footprint. Qed.

Lemma encode_returns_0_writes_first_m_witness :
  0 = 0 /\ length [255; 255; 255; 8; 9] = length [6; 7; 7; 8; 9] /\
  drop (Z.to_nat 3) [255; 255; 255; 8; 9]
  = drop (Z.to_nat 3) [6; 7; 7; 8; 9].
Proof.
  apply (encode_returns_0_writes_first_m [1; 2] 2 2 3 [6; 7; 7; 8; 9]
           [255; 255; 255; 8; 9] 0).
  vm_compute. reflexivity.
Defined.

(** X11: the result of a call depends on the message only through its
    first k symbols. *)
Theorem encode_reads_first_k (msg1 msg2 : list Z) (k t m : Z)
    (parity : list Z) :
  take (Z.to_nat k) msg1 = take (Z.to_nat k) msg2 ->
  rs_encode_message msg1 k t m parity = rs_encode_message msg2 k t m parity.
Proof.
  intros H.
  by rewrite <- (rs_encode_message_take msg1), H, rs_encode_message_take.
Qed.

Lemma encode_reads_first_k_witness :
  rs_encode_message [1; 2; 3; 200; 201] 3 4 4 [0; 0; 0; 0]
  = rs_encode_message [1; 2; 3] 3 4 4 [0; 0; 0; 0].
Proof.
  apply (encode_reads_first_k [1; 2; 3; 200; 201] [1; 2; 3] 3 4 4
           [0; 0; 0; 0]).
  reflexivity.
Defined.

(** X12: a code longer than the block, k + t > 2^m - 1, is not rejected:
    with at least one message symbol the copy of the message starts at the
    negative index 2^m - 1 - (k + t) of [msgZ]. *)
Theorem encode_block_too_long (msg : list Z) (k t m : Z) (parity : list Z) :
  0 <= m < 31 -> 1 <= k -> msg <> [] -> 0 <= t ->
  2 ^ m - 1 < k + t < 2 ^ 31 ->
  rs_encode_message msg k t m parity
  = Undefined (OutOfBounds BufMsgZ (2 ^ m - 1 - (k + t))).
Proof.
  intros Hm Hk Hne Ht Hn. pose proof (pow2_bounds m Hm) as Hp.
  destruct msg as [|x msg]; [done|].
  unfold rs_encode_message.
  rewrite int_add_ok by lia. simpl.
  rewrite shl1_pow by done. simpl.
  rewrite int_sub_ok by lia. simpl.
  by rewrite pad_message_negative by lia.
Qed.

Lemma encode_block_too_long_witness :
  rs_encode_message [1; 2; 3] 3 13 4 [0; 0; 0; 0]
  = Undefined (OutOfBounds BufMsgZ (2 ^ 4 - 1 - (3 + 13))).
Proof.
  apply (encode_block_too_long [1; 2; 3] 3 13 4 [0; 0; 0; 0]).
  - lia.
  - lia.
  - discriminate.
  - lia.
  - simpl. lia.
Defined.

(** ** The widths 5 and those without tables *)

(** X13: for m = 5 the padded message has 31 - t symbols but [msgZ] has
    24 cells: every call with t <= 6 that respects k + t <= 31 writes
    [msgZ] at index 24. *)
Theorem encode_width_5_overflows_msgZ (msg : list Z) (k t : Z)
    (parity : list Z) :
  0 <= k <= Z.of_nat (length msg) -> 0 <= t <= 6 -> k + t <= 2 ^ 5 - 1 ->
  rs_encode_message msg k t 5 parity = Undefined (OutOfBounds BufMsgZ 24).
Proof. apply rs_encode_message_5_overflow. Qed.

Lemma encode_width_5_overflows_msgZ_witness :
  rs_encode_message [1; 2; 3] 3 6 5 [0; 0; 0; 0; 0; 0]
  = Undefined (OutOfBounds BufMsgZ 24).
Proof.
  apply (encode_width_5_overflows_msgZ [1; 2; 3] 3 6 [0; 0; 0; 0; 0; 0]).
  - simpl. lia.
  - lia.
  - simpl. lia.
Defined.

(** X14: for m = 5 and 7 <= t <= 30 the call returns 0 and sets the first
    five parity cells to zero, whatever the message and whatever the buffer
    held: the field operations for m = 5 are stubs that return 0. *)
Theorem encode_width_5_writes_zeros (msg : list Z) (k t : Z)
    (p rest : list Z) :
  0 <= k <= Z.of_nat (length msg) -> 7 <= t <= 30 -> k + t <= 2 ^ 5 - 1 ->
  length p = 5%nat ->
  rs_encode_message msg k t 5 (p ++ rest)
  = Done (0, [0; 0; 0; 0; 0] ++ rest).
Proof.
  intros Hk Ht Hn Hl. change (2 ^ 5 - 1) with 31 in Hn.
  rewrite rs_encode_message_fold;
    unfold RS_MAX_PARITY_SYMBOLS, RS_MAX_MESSAGE_LENGTH;
    change (2 ^ 5 - 1) with 31; try lia.
  rewrite lfsr_fold_5; [done| |done].
  apply padded_nonempty; lia.
Qed.

Lemma encode_width_5_writes_zeros_witness :
  rs_encode_message [9; 30; 255] 3 8 5 ([1; 2; 3; 4; 5] ++ [6; 7; 8])
  = Done (0, [0; 0; 0; 0; 0] ++ [6; 7; 8]).
Proof.
  apply (encode_width_5_writes_zeros [9; 30; 255] 3 8 [1; 2; 3; 4; 5]
           [6; 7; 8]).
  - simpl. lia.
  - lia.
  - simpl. lia.
  - reflexivity.
Defined.

(** X15: a width m between 1 and 8 other than 4 and 5 is not rejected:
    when the block fits ([k + t <= 2^m - 1], at most 24 and at least one
    padded symbol) the call returns 0 and overwrites the first m parity
    cells with 255, the value -1 of the field operations stored in a
    [uint8_t]. *)
Theorem encode_width_without_table (msg : list Z) (k t m : Z)
    (p rest : list Z) :
  1 <= m <= 8 -> m <> 4 -> m <> 5 ->
  0 <= k <= Z.of_nat (length msg) -> 0 <= t -> k + t <= 2 ^ m - 1 ->
  1 <= 2 ^ m - 1 - t <= 24 ->
  Z.of_nat (length p) = m ->
  rs_encode_message msg k t m (p ++ rest)
  = Done (0, replicate (Z.to_nat m) 255 ++ rest).
Proof.
  intros Hm H4 H5 Hk Ht Hn Hb Hl.
  rewrite rs_encode_message_fold;
    unfold RS_MAX_PARITY_SYMBOLS, RS_MAX_MESSAGE_LENGTH; try lia.
  rewrite lfsr_fold_no_table; try done.
  apply padded_nonempty; lia.
Qed.

Lemma encode_width_without_table_witness :
  rs_encode_message [1; 2] 2 2 3 ([6; 7; 7] ++ [8; 9])
  = Done (0, replicate (Z.to_nat 3) 255 ++ [8; 9]).
Proof.
  apply (encode_width_without_table [1; 2] 2 2 3 [6; 7; 7] [8; 9]).
  - lia.
  - lia.
  - lia.
  - simpl. lia.
  - lia.
  - simpl. lia.
  - simpl. lia.
  - reflexivity.
Defined.

(** ** The field operations *)

(** X16: for m = 4 [galois_field_add] is defined exactly on pairs of
    field elements: any operand outside [0, 16) indexes the addition table
    out of bounds. *)
Theorem galois_field_add_4_domain (l r : Z) :
  (exists v, galois_field_add 4 l r = Done v)
  <-> 0 <= l < 16 /\ 0 <= r < 16.
Proof.
  split.
  - intros [v H].
    destruct GALOIS_ADDITIONS_4_shape as [Hrows Hcols].
    apply (table_shape _ _ _ _ _ _ Hrows Hcols H).
  - intros [Hl Hr]. exists (Z.lxor l r). by apply add4_xor.
Qed.

(** X17: for m = 4 [galois_field_multiply_generator] is defined exactly
    for a field element and a coefficient index in [0, 4). *)
Theorem galois_field_multiply_generator_4_domain (l genIndex : Z) :
  (exists v, galois_field_multiply_generator 4 l genIndex = Done v)
  <-> 0 <= l < 16 /\ 0 <= genIndex < 4.
Proof.
  split.
  - intros [v H].
    destruct GALOIS_PRODUCTS_4_shape as [Hrows Hcols].
    apply (table_shape _ _ _ _ _ _ Hrows Hcols H).
  - intros [Hl Hj]. exists (prod4 l genIndex). by apply mul4_prod.
Qed.

(** X18: for m = 4 the multiplication by each of the four generator
    coefficients is one-to-one on the field elements: every column of
    [GALOIS_PRODUCTS_4] lists sixteen different values. *)
Theorem galois_field_multiply_generator_4_injective (a b j : Z) :
  0 <= a < 16 -> 0 <= b < 16 -> 0 <= j < 4 -> a <> b ->
  galois_field_multiply_generator 4 a j
  <> galois_field_multiply_generator 4 b j.
Proof.
  intros Ha Hb Hj Hab H. rewrite !mul4_prod in H by done.
  apply Done_inj in H. by apply Hab, (prod4_injective a b j).
Qed.

Lemma galois_field_multiply_generator_4_injective_witness :
  3 <> 9 /\
  galois_field_multiply_generator 4 3 2
  <> galois_field_multiply_generator 4 9 2.
Proof.
  split; [lia|].
  apply (galois_field_multiply_generator_4_injective 3 9 2).
  - lia.
  - lia.
  - lia.
  - lia.
Defined.

(** X19: the generator coefficients tabulated in row 1 of
    [GALOIS_PRODUCTS_4] are 13, 12, 8, 7, and with leading coefficient 1
    they form the product of the four factors x + alpha^i, i = 1..4, for
    the primitive element alpha = 2 of GF(16) with x^4 + x + 1. *)
Theorem generator_table_row_is_rs_generator :
  let alpha := spec_antilog 4 PRIMITIVE_POLY_4 in
  galois_field_multiply_generator 4 1 0 = Done 13 /\
  galois_field_multiply_generator 4 1 1 = Done 12 /\
  galois_field_multiply_generator 4 1 2 = Done 8 /\
  galois_field_multiply_generator 4 1 3 = Done 7 /\
  spec_poly_mul gf16_mul
    (spec_poly_mul gf16_mul [1; alpha 1] [1; alpha 2])
    (spec_poly_mul gf16_mul [1; alpha 3] [1; alpha 4])
  = [1; 13; 12; 8; 7].
Proof. repeat split; by vm_compute. Qed.

(** ** Calls on pointers into one array, and [main.c] *)

(** X20: when [msg] and [parity] point into one array, at any offsets and
    overlapping or not, a call behaves as the call on two separate arrays
    holding what the two pointers see on entry; the cells before [parity]
    are left alone. *)
Theorem encode_shared_array (mem : list Z) (msg k t m parity : Z)
    (r : Z) (p' : list Z) :
  0 <= msg -> 0 <= parity <= Z.of_nat (length mem) ->
  rs_encode_message (drop (Z.to_nat msg) mem) k t m
    (drop (Z.to_nat parity) mem) = Done (r, p') ->
  rs_encode_message_at mem msg k t m parity
  = Done (r, take (Z.to_nat parity) mem ++ p').
Proof. apply rs_encode_message_at_separate. Qed.

Lemma encode_shared_array_witness :
  rs_encode_message_at [1; 2; 3; 0; 0; 0; 0] 0 3 4 4 2
  = Done (0, take (Z.to_nat 2) [1; 2; 3; 0; 0; 0; 0] ++ [8; 7; 6; 2; 0]).
Proof.
  apply (encode_shared_array [1; 2; 3; 0; 0; 0; 0] 0 3 4 4 2 0
           [8; 7; 6; 2; 0]).
  - lia.
  - simpl. lia.
  - vm_compute. reflexivity.
Defined.

(** X21: the call of [main.c], [rs_encode_message(buf, k, 4, 4, buf + k)]
    on an array holding k <= 11 message symbols below 16 followed by four
    zero cells, returns 0, leaves the message in place and puts the four
    parity symbols behind it: the array then starts with a multiple of the
    generator, and its cells behind the parity are left alone. *)
Theorem encode_in_place_codeword (msg tail : list Z) :
  Z.of_nat (length msg) <= 11 -> Forall (field_elem 4) msg ->
  exists p,
    rs_encode_message_at (msg ++ [0; 0; 0; 0] ++ tail) 0
      (Z.of_nat (length msg)) 4 4 (Z.of_nat (length msg))
    = Done (0, msg ++ p ++ tail) /\
    reg4 p /\
    spec_poly_rem gf16_mul GENERATOR_4 (msg ++ p) = [0; 0; 0; 0].
Proof.
  intros Hk Hmsg.
  set (mem := msg ++ [0; 0; 0; 0] ++ tail).
  assert (Htake : take (Z.to_nat (Z.of_nat (length msg))) mem = msg).
  { unfold mem. by rewrite Nat2Z.id, take_app_length. }
  assert (Hdrop : drop (Z.to_nat (Z.of_nat (length msg))) mem
                  = [0; 0; 0; 0] ++ tail).
  { unfold mem. by rewrite Nat2Z.id, drop_app_length. }
  destruct (encode_cleared_divisible mem (Z.of_nat (length msg)) tail)
    as (p & Hp & Hreg & Hrem).
  - lia.
  - unfold mem. rewrite length_app. lia.
  - by rewrite Htake.
  - exists p. rewrite Htake in Hrem. split; [|done].
    rewrite <- Hdrop in Hp.
    rewrite (rs_encode_message_at_separate mem 0 _ 4 4 _ 0 (p ++ tail));
      [by rewrite Htake| lia | | exact Hp].
    unfold mem. rewrite length_app. lia.
Qed.

Lemma encode_in_place_codeword_witness :
  exists p,
    rs_encode_message_at ([1; 2; 3] ++ [0; 0; 0; 0] ++ [9]) 0
      (Z.of_nat (length [1; 2; 3])) 4 4 (Z.of_nat (length [1; 2; 3]))
    = Done (0, [1; 2; 3] ++ p ++ [9]) /\
    reg4 p /\
    spec_poly_rem gf16_mul GENERATOR_4 ([1; 2; 3] ++ p) = [0; 0; 0; 0].
Proof.
  apply (encode_in_place_codeword [1; 2; 3] [9]).
  - simpl. lia.
  - field_elems.
Defined.

(** X22: the printing loop of [main.c], for 1 <= n cells inside the array,
    appends to standard output the n symbols in lower-case hexadecimal,
    separated by single spaces and closed by one line feed. *)
Theorem print_codeword_output (mem : list Z) (n : Z) (out : string) :
  1 <= n <= Z.of_nat (length mem) ->
  print_codeword mem n out
  = Done (out +:+ String.concat " " (fmt_x <$> take (Z.to_nat n) mem)
          +:+ nl).
Proof. apply print_codeword_line. Qed.

Lemma print_codeword_output_witness :
  print_codeword [10; 255; 0; 7] 3 "0x"
  = Done ("0x" +:+
          String.concat " " (fmt_x <$> take (Z.to_nat 3) [10; 255; 0; 7])
          +:+ nl).
Proof.
  apply (print_codeword_output [10; 255; 0; 7] 3 "0x").
  simpl. lia.
Defined.

(** X23: [main] returns 0, writes nothing to standard error and prints
    the title line followed by the fourteen symbols of its array after the
    call, the ten message symbols and the parity 6, 6, 8, 4; these fourteen
    symbols are a multiple of the generator. *)
Theorem main_prints_codeword :
  let cw := [2; 5; 6; 6; 0; 11; 15; 12; 1; 11; 6; 6; 8; 4] in
  rs_encode_message_at [2; 5; 6; 6; 0; 11; 15; 12; 1; 11; 0; 0; 0; 0]
    0 10 4 4 10 = Done (0, cw) /\
  main = Done (0,
               "Successfully encoded message. Message = " +:+ nl +:+
               "0x2 5 6 6 0 b f c 1 b 6 6 8 4" +:+ nl,
               "") /\
  spec_poly_rem gf16_mul GENERATOR_4 cw = [0; 0; 0; 0].
Proof. repeat split; by vm_compute. Qed.

(** ** The parity as a remainder, and scaling *)

(** X24: for m = 4, t = 4 and a cleared buffer the parity is the
    remainder of the message shifted up by four positions, that is, of the
    message followed by four zero symbols, in the division by the
    generator. *)
Theorem encode_cleared_buffer_is_remainder (msg : list Z) (k : Z)
    (rest : list Z) :
  0 <= k <= 11 -> k <= Z.of_nat (length msg) ->
  Forall (field_elem 4) (take (Z.to_nat k) msg) ->
  rs_encode_message msg k 4 4 ([0; 0; 0; 0] ++ rest)
  = Done (0, spec_poly_rem gf16_mul GENERATOR_4
               (take (Z.to_nat k) msg ++ [0; 0; 0; 0]) ++ rest).
Proof.
  intros Hk Hl Hmsg.
  set (sym := take (Z.to_nat k) msg) in *.
  assert (Hw : reg4 (fold_left rem_step4 sym [0; 0; 0; 0])).
  { apply fold_rem_step4_reg4; [done|apply reg4_zero]. }
  rewrite encode_cleared by done. fold sym.
  rewrite spec_poly_rem_4, fold_left_app.
  rewrite rem_fold_parity by (done || apply reg4_zero).
  rewrite <- (lfsr_fold_pow4 sym [0; 0; 0; 0] Hmsg reg4_zero).
  change (mulx4_pow4 [0; 0; 0; 0]) with [0; 0; 0; 0].
  assert (Hq : reg4 (fold_left lfsr4 sym [0; 0; 0; 0])).
  { apply fold_lfsr4_reg4; [apply reg4_zero|done]. }
  destruct (reg4_inv _ Hq) as (a & b & c & d & -> & _).
  unfold vxor. simpl. by rewrite !Z.lxor_0_r.
Qed.

Lemma encode_cleared_buffer_is_remainder_witness :
  rs_encode_message [1; 2; 3] 3 4 4 ([0; 0; 0; 0] ++ [5])
  = Done (0, spec_poly_rem gf16_mul GENERATOR_4
               (take (Z.to_nat 3) [1; 2; 3] ++ [0; 0; 0; 0]) ++ [5]).
Proof.
  apply (encode_cleared_buffer_is_remainder [1; 2; 3] 3 [5]).
  - lia.
  - simpl. lia.
  - simpl. field_elems.
Defined.

Lemma gf16_mul_below16 (c a : Z) :
  0 <= c < 16 -> 0 <= a < 16 -> 0 <= gf16_mul c a < 16.
Proof.
  intros Hc Ha. apply below16_spec. revert c a Hc Ha.
  apply (forallb2_seqZ (fun c a => below16 (gf16_mul c a))). by vm_compute.
Qed.

Lemma gf16_mul_lxor (c x y : Z) :
  0 <= c < 16 -> 0 <= x < 16 -> 0 <= y < 16 ->
  gf16_mul c (Z.lxor x y) = Z.lxor (gf16_mul c x) (gf16_mul c y).
Proof.
  intros Hc Hx Hy. apply Z.eqb_eq.
  pose (P := fun c : Z => forallb (fun x => forallb (fun y =>
    gf16_mul c (Z.lxor x y) =? Z.lxor (gf16_mul c x) (gf16_mul c y))
    (seqZ 0 16)) (seqZ 0 16)).
  assert (HP : forall c, 0 <= c < 16 -> P c = true).
  { apply forallb_seqZ. by vm_compute. }
  exact (forallb2_seqZ (fun x y =>
    gf16_mul c (Z.lxor x y) =? Z.lxor (gf16_mul c x) (gf16_mul c y)) 16 16
    (HP c Hc) x y Hx Hy).
Qed.

Lemma prod4_scale (c a j : Z) :
  0 <= c < 16 -> 0 <= a < 16 -> 0 <= j < 4 ->
  prod4 (gf16_mul c a) j = gf16_mul c (prod4 a j).
Proof.
  intros Hc Ha Hj. apply Z.eqb_eq.
  pose (P := fun c : Z => forallb (fun a => forallb (fun j =>
    prod4 (gf16_mul c a) j =? gf16_mul c (prod4 a j))
    (seqZ 0 4)) (seqZ 0 16)).
  assert (HP : forall c, 0 <= c < 16 -> P c = true).
  { apply forallb_seqZ. by vm_compute. }
  exact (forallb2_seqZ (fun a j =>
    prod4 (gf16_mul c a) j =? gf16_mul c (prod4 a j)) 16 4
    (HP c Hc) a j Ha Hj).
Qed.

Lemma lfsr4_scale (c : Z) (r : list Z) (s : Z) :
  0 <= c < 16 -> reg4 r -> field_elem 4 s ->
  lfsr4 (gf16_mul c <$> r) (gf16_mul c s) = gf16_mul c <$> lfsr4 r s.
Proof.
  intros Hc Hr Hs. apply field_elem_4 in Hs.
  destruct (reg4_inv r Hr) as (a & b & c0 & d & -> & Ha & Hb & Hc0 & Hd).
  pose proof (lxor_below16 s a Hs Ha) as Hf.
  cbn [fmap list_fmap lfsr4].
  rewrite <- gf16_mul_lxor, !prod4_scale by (done || lia).
  rewrite <- !gf16_mul_lxor
    by (done || lia || (apply prod4_below16; (done || lia))).
  done.
Qed.

Lemma fold_lfsr4_scale (c : Z) (syms r : list Z) :
  0 <= c < 16 -> Forall (field_elem 4) syms -> reg4 r ->
  fold_left lfsr4 (gf16_mul c <$> syms) (gf16_mul c <$> r)
  = gf16_mul c <$> fold_left lfsr4 syms r.
Proof.
  intros Hc. revert r. induction syms as [|x syms IH]; intros r Hs Hr;
    [done|].
  apply Forall_cons in Hs as [Hx Hs]. cbn [fmap list_fmap fold_left].
  rewrite lfsr4_scale by done. apply IH; [done|by apply lfsr4_reg4].
Qed.

(** X25: for m = 4, t = 4 and a cleared buffer, multiplying every message
    symbol by one field element c multiplies every parity symbol by c:
    with the additivity this makes the encoding linear over GF(16). *)
Theorem encode_cleared_buffer_scales (c : Z) (msg : list Z) (k : Z)
    (rest : list Z) :
  0 <= c < 16 -> 0 <= k <= 11 -> k <= Z.of_nat (length msg) ->
  Forall (field_elem 4) (take (Z.to_nat k) msg) ->
  exists p,
    rs_encode_message msg k 4 4 ([0; 0; 0; 0] ++ rest) = Done (0, p ++ rest) /\
    rs_encode_message (gf16_mul c <$> msg) k 4 4 ([0; 0; 0; 0] ++ rest)
    = Done (0, (gf16_mul c <$> p) ++ rest).
Proof.
  intros Hc Hk Hl Hmsg.
  exists (fold_left lfsr4 (take (Z.to_nat k) msg) [0; 0; 0; 0]).
  split; [by apply encode_cleared|].
  assert (Ht : take (Z.to_nat k) (gf16_mul c <$> msg)
               = gf16_mul c <$> take (Z.to_nat k) msg)
    by (symmetry; apply fmap_take).
  rewrite encode_cleared; [|done|by rewrite length_fmap|].
  - rewrite Ht, <- fold_lfsr4_scale by (done || apply reg4_zero).
    change (gf16_mul c <$> [0; 0; 0; 0])
      with [gf16_mul c 0; gf16_mul c 0; gf16_mul c 0; gf16_mul c 0].
    assert (H0 : gf16_mul c 0 = 0).
    { unfold gf16_mul, spec_gf_mul. by rewrite orb_true_r. }
    by rewrite H0.
  - rewrite Ht. apply Forall_fmap.
    eapply Forall_impl; [exact Hmsg|].
    intros x Hx. apply field_elem_4 in Hx.
    by apply field_elem_4, gf16_mul_below16.
Qed.

Lemma encode_cleared_buffer_scales_witness :
  exists p,
    rs_encode_message [1; 2; 3] 3 4 4 ([0; 0; 0; 0] ++ []) = Done (0, p ++ []) /\
    rs_encode_message (gf16_mul 7 <$> [1; 2; 3]) 3 4 4 ([0; 0; 0; 0] ++ [])
    = Done (0, (gf16_mul 7 <$> p) ++ []).
Proof.
  apply (encode_cleared_buffer_scales 7 [1; 2; 3] 3 []).
  - lia.
  - lia.
  - simpl. lia.
  - simpl. field_elems.
Defined.
